(** * review-page: the draw-and-remove server ([src/server.js])

    The server keeps no state of its own.  Each request reads
    [reviews.json] from a GitHub repository, and [GET /next-review]
    writes the shortened list back, guarded by the blob sha it read.

    The development embeds the two request handlers over
    - a type of JSON values,
    - a small free monad of the two Octokit calls the handlers make,
      with JavaScript exceptions as an error layer on top of it, and
    - a model of the remote file and of what the rest of the world may
      do to it between two calls.

    What belongs to the JavaScript platform and to GitHub rather than to
    this repository ([JSON.parse], [JSON.stringify], the blob hash) is a
    parameter, see [Platform]. *)

From Stdlib Require Import ZArith String Ascii List Lia.
From Stdlib Require Import DecimalFacts DecimalZ DecimalPos.
From stdpp Require Import base list strings gmap.

Open Scope string_scope.
Open Scope list_scope.

(** ** JSON values *)

(** What [JSON.parse] can deliver.  Numbers are opaque payloads for the
    server except for their truthiness, and are kept as integers;
    fractions and the IEEE special values are outside the model.  A
    [string] stands for the sequence of code units of a JavaScript
    string.  The members of an object are kept in the order of the text,
    later members shadowing earlier ones of the same name, as
    [JSON.parse] has it. *)
#[warning="-register-all"]
Inductive value : Type :=
| JNull
| JBool (b : bool)
| JNum (n : Z)
| JStr (s : string)
| JArr (elems : list value)
| JObj (members : list (string * value)).

(** A JavaScript expression of the handlers evaluates to a JSON value or
    to [undefined]. *)
Abbreviation undefined := (@None value).

(** Own property [key] of an object built by [JSON.parse]. *)
Fixpoint lookup_member (key : string) (members : list (string * value)) : option value :=
  match members with
  | [] => undefined
  | (k, v) :: rest =>
      match lookup_member key rest with
      | Some v' => Some v'
      | None => if String.eqb k key then Some v else undefined
      end
  end.

(** JavaScript exceptions that can reach a handler. *)
Inductive api_error : Type :=
| NotFoundError
| AuthError
| TransientError
| ConflictError.

Inductive exn : Type :=
| RequestError (e : api_error)
| SyntaxError
| TypeError.

(** [v.reviews]: a [TypeError] on [null], the own property on an object,
    and [undefined] on everything else (no prototype of a primitive or of
    an array has a property of that name). *)
Definition prop_reviews (v : value) : exn + option value :=
  match v with
  | JNull => inl TypeError
  | JObj members => inr (lookup_member "reviews" members)
  | _ => inr undefined
  end.

(** [v.length]. *)
Definition prop_length (v : value) : exn + option value :=
  match v with
  | JNull => inl TypeError
  | JArr elems => inr (Some (JNum (Z.of_nat (length elems))))
  | JStr s => inr (Some (JNum (Z.of_nat (String.length s))))
  | JObj members => inr (lookup_member "length" members)
  | JBool _ | JNum _ => inr undefined
  end.

(** [ToBoolean]. *)
Definition truthy (v : value) : bool :=
  match v with
  | JNull => false
  | JBool b => b
  | JNum n => negb (n =? 0)%Z
  | JStr s => negb (String.eqb s "")
  | JArr _ | JObj _ => true
  end.

(** [a || b]. *)
Definition js_or (a : option value) (b : value) : value :=
  match a with
  | Some v => if truthy v then v else b
  | None => b
  end.

Definition Array_isArray (v : value) : bool :=
  match v with JArr _ => true | _ => false end.

(** The elements of an array value (used only under [Array_isArray]). *)
Definition elements (v : value) : list value :=
  match v with JArr elems => elems | _ => [] end.

(** ** Responses *)

Record response : Type := Response { status : nat; body : value }.

(** An object literal: a property whose value is [undefined] is dropped
    when the object is serialised. *)
Definition object (fields : list (string * option value)) : value :=
  JObj (omap (fun kv => pair (fst kv) <$> snd kv) fields).

(** [res.status(code).json(fields)]; [res.json] alone answers 200. *)
Definition res_json (code : nat) (fields : list (string * option value)) : response :=
  Response code (object fields).

(** ** The platform *)

(** [{ content, sha }] as [readGitHubFile] returns it: the decoded text
    of the file and its blob sha.  The base64 and UTF-8 transport
    encodings of the two calls are not modelled. *)
Record blob : Type := Blob { content : string; sha : string }.

(** [JSON_parse] is [None] where [JSON.parse] throws; [JSON_stringify] is
    [JSON.stringify(_, null, 2)]; [blob_sha] is the git blob hash GitHub
    reports for a file and compares on update. *)
Class Platform : Type := {
  JSON_parse : string -> option value;
  JSON_stringify : value -> string;
  blob_sha : string -> string
}.

(** ** Programs over the GitHub contents API *)

Inductive io (A : Type) : Type :=
| Ret (a : A)
| GetContent (k : api_error + blob -> io A)
| CreateOrUpdateFileContents (newContent expected : string) (k : api_error + unit -> io A).

Arguments Ret {A} a.
Arguments GetContent {A} k.
Arguments CreateOrUpdateFileContents {A} newContent expected k.

Fixpoint io_bind {A B : Type} (p : io A) (f : A -> io B) : io B :=
  match p with
  | Ret a => f a
  | GetContent k => GetContent (fun r => io_bind (k r) f)
  | CreateOrUpdateFileContents c s k =>
      CreateOrUpdateFileContents c s (fun r => io_bind (k r) f)
  end.

(** The body of an [async] function: it settles with a value or throws. *)
Definition async (A : Type) : Type := io (exn + A).

Definition ret {A : Type} (a : A) : async A := Ret (inr a).
Definition throw {A : Type} (e : exn) : async A := Ret (inl e).
Definition lift {A : Type} (r : exn + A) : async A := Ret r.

Definition bind {A B : Type} (p : async A) (f : A -> async B) : async B :=
  io_bind p (fun r => match r with inl e => Ret (inl e) | inr a => f a end).

(** [try { return p } catch (err) { return h err }]. *)
Definition try_catch {A : Type} (p : async A) (h : exn -> io A) : io A :=
  io_bind p (fun r => match r with inl e => h e | inr a => Ret a end).

Declare Scope async_scope.
Delimit Scope async_scope with async.
Notation "x <- p ;; q" := (bind p (fun x => q))
  (at level 100, p at next level, right associativity) : async_scope.
Notation "p ;;; q" := (bind p (fun _ => q))
  (at level 100, right associativity) : async_scope.

(** ** The server *)

Section Server.
Context `{Platform}.

Definition readGitHubFile : async blob :=
  GetContent (fun r =>
    match r with
    | inl e => throw (RequestError e)
    | inr b => ret b
    end).

Definition writeGitHubFile (newContent sha : string) : async unit :=
  CreateOrUpdateFileContents newContent sha (fun r =>
    match r with
    | inl e => throw (RequestError e)
    | inr tt => ret tt
    end).

(** The selection step of [GET /next-review] (lines 86-91), once the
    index [Math.floor(Math.random() * reviews.length)] is drawn: the
    element read at [index], and the array after [splice(index, 1)].
    Past the end of the array the read gives [undefined] and the splice
    removes nothing. *)
Definition selectAndRemove (index : nat) (reviews : list value)
  : option value * list value :=
  (reviews !! index, delete index reviews).

(** [GET /next-review], the draw.  [random_index len] is what
    [Math.floor(Math.random() * len)] evaluates to in this request (the
    floating-point product itself is not modelled). *)
Definition next_review (random_index : nat -> nat) : io response :=
  try_catch
    (b <- readGitHubFile ;;
     match JSON_parse (content b) with
     | None =>
         ret (res_json 500
                [("error", Some (JStr "Invalid JSON format in reviews.json"))])
     | Some json =>
         r <- lift (prop_reviews json) ;;
         let reviews := js_or r (JArr []) in
         if negb (Array_isArray reviews) || (length (elements reviews) =? 0)%nat then
           ret (res_json 200
                  [("done", Some (JBool true));
                   ("message", Some (JStr "No reviews left in file."));
                   ("review", Some JNull)])
         else
           let index := random_index (length (elements reviews)) in
           let '(selectedReview, reviews) := selectAndRemove index (elements reviews) in
           let newJson := JSON_stringify (JObj [("reviews", JArr reviews)]) in
           writeGitHubFile newJson (sha b) ;;;
           ret (res_json 200
                  [("done", Some (JBool false));
                   ("review", selectedReview);
                   ("remaining", Some (JNum (Z.of_nat (length reviews))))])
     end)%async
    (fun err => Ret (res_json 500 [("error", Some (JStr "Internal server error"))])).

(** [GET /status], the count. *)
Definition get_status : io response :=
  try_catch
    (b <- readGitHubFile ;;
     match JSON_parse (content b) with
     | None => throw SyntaxError
     | Some json =>
         r <- lift (prop_reviews json) ;;
         let reviews := js_or r (JArr []) in
         len <- lift (prop_length reviews) ;;
         ret (res_json 200 [("count", len)])
     end)%async
    (fun err => Ret (res_json 500 [("error", Some (JStr "Internal server error"))])).

End Server.

(** ** The remote file and its environment *)

(** What the rest of the world does just before a call of this server
    reaches GitHub: nothing, an outage that makes the call fail, or a
    commit by another writer that replaces the file. *)
Inductive env_event : Type :=
| Quiet
| Outage (e : api_error)
| Commit (c : string).

(** [remote] is the text of [reviews.json] on the branch; [plan] lists
    the coming events, one for each call, and is [Quiet] once used up. *)
Record world : Type := World { remote : string; plan : list env_event }.

(** One served call, with its answer. *)
Inductive call : Type :=
| GotContent (r : api_error + blob)
| Updated (newContent expected : string) (r : api_error + unit).

Definition is_update (c : call) : bool :=
  match c with Updated _ _ _ => true | GotContent _ => false end.

Definition is_quiet (ev : env_event) : bool :=
  match ev with Quiet => true | _ => false end.

(** No outage and no other writer for the rest of the run. *)
Definition calm (w : world) : bool := forallb is_quiet (plan w).

(** The next event happens: a commit lands, and the outage, if any, is
    handed to the call. *)
Definition arrive (w : world) : option api_error * world :=
  match plan w with
  | [] => (None, w)
  | Quiet :: rest => (None, World (remote w) rest)
  | Outage e :: rest => (Some e, World (remote w) rest)
  | Commit c :: rest => (None, World c rest)
  end.

Section Remote.
Context `{Platform}.

(** Modelled from the spec: the remote store behind
    [octokit.repos.getContent], the [fetch] of section 4.1, which is not
    part of the repository.  It fails, or returns the current text of the
    file together with its version token, the blob sha. *)
Definition getContent (w : world) : (api_error + blob) * world :=
  let '(outage, w) := arrive w in
  match outage with
  | Some e => (inl e, w)
  | None => (inr (Blob (remote w) (blob_sha (remote w))), w)
  end.

(** Modelled from the spec: the remote store behind
    [octokit.repos.createOrUpdateFileContents] called with a [sha], the
    [put] of section 4.1, which is not part of the repository.  It fails,
    or replaces the file when [expected] is the sha of the blob on the
    branch, and refuses the call as a conflict otherwise. *)
Definition createOrUpdateFileContents (newContent expected : string) (w : world)
  : (api_error + unit) * world :=
  let '(outage, w) := arrive w in
  match outage with
  | Some e => (inl e, w)
  | None =>
      if String.eqb expected (blob_sha (remote w))
      then (inr tt, World newContent (plan w))
      else (inl ConflictError, w)
  end.

(** A request runs to its response; the calls it made are recorded in
    order. *)
Fixpoint exec {A : Type} (p : io A) (w : world) : A * world * list call :=
  match p with
  | Ret a => (a, w, [])
  | GetContent k =>
      let '(r, w) := getContent w in
      let '(a, w, tr) := exec (k r) w in
      (a, w, GotContent r :: tr)
  | CreateOrUpdateFileContents c s k =>
      let '(r, w) := createOrUpdateFileContents c s w in
      let '(a, w, tr) := exec (k r) w in
      (a, w, Updated c s r :: tr)
  end.

(** A request runs up to and including its next call. *)
Definition advance {A : Type} (p : io A) (w : world) : io A * world * list call :=
  match p with
  | Ret a => (Ret a, w, [])
  | GetContent k =>
      let '(r, w) := getContent w in (k r, w, [GotContent r])
  | CreateOrUpdateFileContents c s k =>
      let '(r, w) := createOrUpdateFileContents c s w in (k r, w, [Updated c s r])
  end.

(** Two requests in flight; the schedule says whose call is served next
    ([true] for the first request). *)
Fixpoint interleave {A : Type} (schedule : list bool) (p q : io A) (w : world)
  : io A * io A * world * list call :=
  match schedule with
  | [] => (p, q, w, [])
  | true :: rest =>
      let '(p, w, tr) := advance p w in
      let '(p, q, w, tr') := interleave rest p q w in
      (p, q, w, tr ++ tr')
  | false :: rest =>
      let '(q, w, tr) := advance q w in
      let '(p, q, w, tr') := interleave rest p q w in
      (p, q, w, tr ++ tr')
  end.

(** Requests served one after the other, each with its own random
    source. *)
Fixpoint serve_draws (sources : list (nat -> nat)) (w : world)
  : list response * world * list call :=
  match sources with
  | [] => ([], w, [])
  | random_index :: rest =>
      let '(r, w, tr) := exec (next_review random_index) w in
      let '(rs, w, tr') := serve_draws rest w in
      (r :: rs, w, tr ++ tr')
  end.

(** [n] status requests in a row. *)
Fixpoint serve_status (n : nat) (w : world) : list response * world * list call :=
  match n with
  | 0 => ([], w, [])
  | S n =>
      let '(r, w, tr) := exec get_status w in
      let '(rs, w, tr') := serve_status n w in
      (r :: rs, w, tr ++ tr')
  end.

End Remote.

(** ** A concrete platform *)

(** A JSON codec for the values of [value] (integers for numbers, code
    units below 256 in strings), printing as [JSON.stringify(_, null, 2)]
    lays a document out, with the identity for the blob hash.  The
    theorems on the server hold for every platform; this one runs the
    handlers on concrete documents. *)
Module Json.

#[local] Open Scope char_scope.

Definition dquote : ascii := "034".
Definition newline : ascii := "010".
Definition backslash : ascii := "092".

Definition is_ws (c : ascii) : bool :=
  Ascii.eqb c " " || Ascii.eqb c "010" || Ascii.eqb c "013" || Ascii.eqb c "009".

Definition is_control (c : ascii) : bool := (nat_of_ascii c <? 32)%nat.

Fixpoint skip_ws (s : list ascii) : list ascii :=
  match s with
  | c :: r => if is_ws c then skip_ws r else s
  | [] => []
  end.

(** *** Numbers *)

Fixpoint print_uint (u : Decimal.uint) : list ascii :=
  match u with
  | Decimal.Nil => []
  | Decimal.D0 u => "0" :: print_uint u
  | Decimal.D1 u => "1" :: print_uint u
  | Decimal.D2 u => "2" :: print_uint u
  | Decimal.D3 u => "3" :: print_uint u
  | Decimal.D4 u => "4" :: print_uint u
  | Decimal.D5 u => "5" :: print_uint u
  | Decimal.D6 u => "6" :: print_uint u
  | Decimal.D7 u => "7" :: print_uint u
  | Decimal.D8 u => "8" :: print_uint u
  | Decimal.D9 u => "9" :: print_uint u
  end.

Definition print_number (n : Z) : list ascii :=
  match Z.to_int n with
  | Decimal.Pos u => print_uint u
  | Decimal.Neg u => "-" :: print_uint u
  end.

Definition digit_of (c : ascii) : option (Decimal.uint -> Decimal.uint) :=
  if Ascii.eqb c "0" then Some Decimal.D0
  else if Ascii.eqb c "1" then Some Decimal.D1
  else if Ascii.eqb c "2" then Some Decimal.D2
  else if Ascii.eqb c "3" then Some Decimal.D3
  else if Ascii.eqb c "4" then Some Decimal.D4
  else if Ascii.eqb c "5" then Some Decimal.D5
  else if Ascii.eqb c "6" then Some Decimal.D6
  else if Ascii.eqb c "7" then Some Decimal.D7
  else if Ascii.eqb c "8" then Some Decimal.D8
  else if Ascii.eqb c "9" then Some Decimal.D9
  else None.

(** The digits at the head of [s], and what follows them. *)
Fixpoint parse_uint (s : list ascii) : Decimal.uint * list ascii :=
  match s with
  | c :: r =>
      match digit_of c with
      | Some d => let '(u, r') := parse_uint r in (d u, r')
      | None => (Decimal.Nil, s)
      end
  | [] => (Decimal.Nil, [])
  end.

(** A fraction or an exponent would follow: not an integer. *)
Definition continues_number (s : list ascii) : bool :=
  match s with
  | c :: _ => Ascii.eqb c "." || Ascii.eqb c "e" || Ascii.eqb c "E"
  | [] => false
  end.

(** A zero followed by more digits. *)
Definition leading_zero (u : Decimal.uint) : bool :=
  match u with
  | Decimal.D0 Decimal.Nil => false
  | Decimal.D0 _ => true
  | _ => false
  end.

Definition parse_number (s : list ascii) : option (Z * list ascii) :=
  match s with
  | c :: r =>
      let '(negative, digits) := if Ascii.eqb c "-" then (true, r) else (false, s) in
      let '(u, rest) := parse_uint digits in
      match u with
      | Decimal.Nil => None
      | _ =>
          if leading_zero u || continues_number rest then None
          else Some (Z.of_int (if negative then Decimal.Neg u else Decimal.Pos u), rest)
      end
  | [] => None
  end.

(** *** Strings *)

Definition hex_digit (n : nat) : ascii :=
  if (n <? 10)%nat then ascii_of_nat (48 + n) else ascii_of_nat (87 + n).

Definition hex_value (c : ascii) : option nat :=
  let n := nat_of_ascii c in
  if (48 <=? n)%nat && (n <=? 57)%nat then Some (n - 48)
  else if (97 <=? n)%nat && (n <=? 102)%nat then Some (n - 87)
  else if (65 <=? n)%nat && (n <=? 70)%nat then Some (n - 55)
  else None.

Definition print_char (c : ascii) : list ascii :=
  if Ascii.eqb c dquote then [backslash; dquote]
  else if Ascii.eqb c backslash then [backslash; backslash]
  else if Ascii.eqb c "008" then [backslash; "b"]
  else if Ascii.eqb c "012" then [backslash; "f"]
  else if Ascii.eqb c "010" then [backslash; "n"]
  else if Ascii.eqb c "013" then [backslash; "r"]
  else if Ascii.eqb c "009" then [backslash; "t"]
  else if is_control c then
    [backslash; "u"; "0"; "0"; hex_digit (nat_of_ascii c / 16); hex_digit (nat_of_ascii c mod 16)]
  else [c].

Fixpoint print_chars (s : string) : list ascii :=
  match s with
  | EmptyString => []
  | String c s => print_char c ++ print_chars s
  end.

Definition print_string (s : string) : list ascii :=
  dquote :: print_chars s ++ [dquote].

Definition unescape (c : ascii) : option ascii :=
  if Ascii.eqb c dquote then Some dquote
  else if Ascii.eqb c backslash then Some backslash
  else if Ascii.eqb c "/" then Some "/"
  else if Ascii.eqb c "b" then Some "008"
  else if Ascii.eqb c "f" then Some "012"
  else if Ascii.eqb c "n" then Some "010"
  else if Ascii.eqb c "r" then Some "013"
  else if Ascii.eqb c "t" then Some "009"
  else None.

(** The text of a string after its opening quote, up to and including the
    closing one. *)
Fixpoint parse_string (s : list ascii) : option (string * list ascii) :=
  match s with
  | [] => None
  | c :: r =>
      if Ascii.eqb c dquote then Some (EmptyString, r)
      else if Ascii.eqb c backslash then
        match r with
        | "u" :: "0" :: "0" :: x :: y :: r' =>
            match hex_value x, hex_value y with
            | Some h, Some l =>
                match parse_string r' with
                | Some (str, rest) => Some (String (ascii_of_nat (16 * h + l)) str, rest)
                | None => None
                end
            | _, _ => None
            end
        | e :: r' =>
            match unescape e with
            | Some c' =>
                match parse_string r' with
                | Some (str, rest) => Some (String c' str, rest)
                | None => None
                end
            | None => None
            end
        | [] => None
        end
      else if is_control c then None
      else
        match parse_string r with
        | Some (str, rest) => Some (String c str, rest)
        | None => None
        end
  end.

(** *** Documents *)

Definition chars (s : string) : list ascii := list_ascii_of_string s.

(** A line break and the indentation of the next line. *)
Definition indent (depth : nat) : list ascii := newline :: repeat " " depth.

Fixpoint print_value (depth : nat) (v : value) : list ascii :=
  match v with
  | JNull => chars "null"
  | JBool true => chars "true"
  | JBool false => chars "false"
  | JNum n => print_number n
  | JStr s => print_string s
  | JArr [] => chars "[]"
  | JArr (x :: l) =>
      "[" :: indent (2 + depth) ++ print_value (2 + depth) x
        ++ flat_map (fun y => "," :: indent (2 + depth) ++ print_value (2 + depth) y) l
        ++ indent depth ++ ["]"]
  | JObj [] => chars "{}"
  | JObj ((k, x) :: m) =>
      "{" :: indent (2 + depth) ++ print_string k ++ ":" :: " " :: print_value (2 + depth) x
        ++ flat_map (fun kv => "," :: indent (2 + depth) ++ print_string (fst kv)
                                 ++ ":" :: " " :: print_value (2 + depth) (snd kv)) m
        ++ indent depth ++ ["}"]
  end.

Definition is_digit (c : ascii) : bool :=
  match digit_of c with Some _ => true | None => false end.

Fixpoint strip_prefix (p : string) (s : list ascii) : option (list ascii) :=
  match p, s with
  | EmptyString, _ => Some s
  | String c p, c' :: s => if Ascii.eqb c c' then strip_prefix p s else None
  | String _ _, [] => None
  end.

Fixpoint parse_value (fuel : nat) (s : list ascii) : option (value * list ascii) :=
  match fuel with
  | 0 => None
  | S fuel =>
      match skip_ws s with
      | [] => None
      | c :: r =>
          if Ascii.eqb c "n" then pair JNull <$> strip_prefix "ull" r
          else if Ascii.eqb c "t" then pair (JBool true) <$> strip_prefix "rue" r
          else if Ascii.eqb c "f" then pair (JBool false) <$> strip_prefix "alse" r
          else if Ascii.eqb c dquote then
            match parse_string r with
            | Some (str, rest) => Some (JStr str, rest)
            | None => None
            end
          else if Ascii.eqb c "[" then
            match skip_ws r with
            | [] => None
            | c' :: r' =>
                if Ascii.eqb c' "]" then Some (JArr [], r')
                else
                  match parse_elements fuel (c' :: r') with
                  | Some (l, rest) => Some (JArr l, rest)
                  | None => None
                  end
            end
          else if Ascii.eqb c "{" then
            match skip_ws r with
            | [] => None
            | c' :: r' =>
                if Ascii.eqb c' "}" then Some (JObj [], r')
                else
                  match parse_members fuel (c' :: r') with
                  | Some (m, rest) => Some (JObj m, rest)
                  | None => None
                  end
            end
          else if Ascii.eqb c "-" || is_digit c then
            match parse_number (c :: r) with
            | Some (n, rest) => Some (JNum n, rest)
            | None => None
            end
          else None
      end
  end
with parse_elements (fuel : nat) (s : list ascii) : option (list value * list ascii) :=
  match fuel with
  | 0 => None
  | S fuel =>
      match parse_value fuel s with
      | None => None
      | Some (v, r) =>
          match skip_ws r with
          | [] => None
          | c :: r' =>
              if Ascii.eqb c "," then
                match parse_elements fuel r' with
                | Some (l, rest) => Some (v :: l, rest)
                | None => None
                end
              else if Ascii.eqb c "]" then Some ([v], r')
              else None
          end
      end
  end
with parse_members (fuel : nat) (s : list ascii)
  : option (list (string * value) * list ascii) :=
  match fuel with
  | 0 => None
  | S fuel =>
      match skip_ws s with
      | [] => None
      | q :: r =>
          if Ascii.eqb q dquote then
            match parse_string r with
            | None => None
            | Some (k, r) =>
                match skip_ws r with
                | [] => None
                | c :: r =>
                    if Ascii.eqb c ":" then
                      match parse_value fuel r with
                      | None => None
                      | Some (v, r) =>
                          match skip_ws r with
                          | [] => None
                          | c :: r' =>
                              if Ascii.eqb c "," then
                                match parse_members fuel r' with
                                | Some (m, rest) => Some ((k, v) :: m, rest)
                                | None => None
                                end
                              else if Ascii.eqb c "}" then Some ([(k, v)], r')
                              else None
                          end
                      end
                    else None
                end
            end
          else None
      end
  end.

(** Fuel that [parse_value] needs for the text of [v]. *)
Fixpoint weight (v : value) : nat :=
  match v with
  | JArr l => S (list_sum (map (fun x => S (weight x)) l))
  | JObj m => S (list_sum (map (fun kv => S (weight (snd kv))) m))
  | _ => 1
  end.

(** The characters a value can start with, and the texts that can follow
    a value inside a document. *)
Definition opens_value (c : ascii) : bool :=
  Ascii.eqb c "n" || Ascii.eqb c "t" || Ascii.eqb c "f" || Ascii.eqb c dquote
  || Ascii.eqb c "[" || Ascii.eqb c "{" || Ascii.eqb c "-" || is_digit c.

Definition closes_value (s : list ascii) : bool :=
  match s with
  | [] => true
  | c :: _ => is_ws c || Ascii.eqb c "," || Ascii.eqb c "]" || Ascii.eqb c "}"
  end.

(** [parse_value] reads [v] back from its text at any depth, before any
    text that can follow a value. *)
Definition reads_back (v : value) : Prop :=
  forall depth fuel rest,
    weight v <= fuel ->
    closes_value rest = true ->
    parse_value fuel (print_value depth v ++ rest) = Some (v, rest).

(** [JSON.parse] on the subset: one value, then only white space. *)
Definition parse (text : string) : option value :=
  let s := chars text in
  match parse_value (S (length s)) s with
  | Some (v, rest) =>
      match skip_ws rest with
      | [] => Some v
      | _ :: _ => None
      end
  | None => None
  end.

(** [JSON.stringify(v, null, 2)] on the subset. *)
Definition stringify (v : value) : string := string_of_list_ascii (print_value 0 v).

#[export] Instance platform : Platform :=
  {| JSON_parse := parse; JSON_stringify := stringify; blob_sha := fun c => c |}.

End Json.

(** ** Sample documents *)

Definition abc : list value := [JStr "A"; JStr "B"; JStr "C"].

(** The text of [reviews.json] for a list of reviews, as the server
    writes it. *)
Definition reviews_file (l : list value) : string :=
  Json.stringify (JObj [("reviews", JArr l)]).

Definition pick_first (len : nat) : nat := 0.
Definition pick_last (len : nat) : nat := len - 1.
Definition pick_middle (len : nat) : nat := len / 2.

(** ** Vocabulary of the statements *)

(** The three kinds of answer of [GET /next-review]. *)
Definition drawn (review : value) (remaining : nat) : response :=
  Response 200
    (JObj [("done", JBool false); ("review", review);
           ("remaining", JNum (Z.of_nat remaining))]).

Definition exhausted : response :=
  Response 200
    (JObj [("done", JBool true); ("message", JStr "No reviews left in file.");
           ("review", JNull)]).

Definition server_error (message : string) : response :=
  Response 500 (JObj [("error", JStr message)]).

(** [Math.random()] lies in [[0, 1)], so the index drawn for a non-empty
    array is one of its indices. *)
Definition in_range (random_index : nat -> nat) : Prop :=
  forall len, 0 < len -> random_index len < len.

(** [JSON.parse] reads back what [JSON.stringify] wrote for a list of
    reviews. *)
Definition round_trips (P : Platform) : Prop :=
  forall l : list value,
    JSON_parse (JSON_stringify (JObj [("reviews", JArr l)]))
    = Some (JObj [("reviews", JArr l)]).

(** Different texts have different blob hashes (git's working
    assumption on its object names). *)
Definition collision_free (P : Platform) : Prop :=
  forall c c' : string, blob_sha c = blob_sha c' -> c = c'.

(** The answers of successive draws that return the reviews of [order]
    one by one: each reports as remaining the number of reviews still to
    come. *)
Fixpoint countdown (order : list value) : list response :=
  match order with
  | [] => []
  | review :: rest => drawn review (length rest) :: countdown rest
  end.

Definition is_commit (ev : env_event) : bool :=
  match ev with Commit _ => true | _ => false end.

(** No other writer commits for the rest of the run (outages may
    happen). *)
Definition undisturbed (w : world) : bool :=
  forallb (fun ev => negb (is_commit ev)) (plan w).

(** The world after the next [n] events have happened. *)
Fixpoint after_events (n : nat) (w : world) : world :=
  match n with
  | 0 => w
  | S n => after_events n (snd (arrive w))
  end.

(** ** Start-up *)

(** [process.env] once [dotenv.config()] has run: the variables that are
    set, each with its text. *)
Abbreviation process_env := (gmap string string).

(** [process.env.NAME]: a string, or [undefined] when the variable is
    not set. *)
Definition env_var (env : process_env) (name : string) : option value :=
  JStr <$> env !! name.

(** [!a]. *)
Definition js_not (a : option value) : bool :=
  match a with
  | Some v => negb (truthy v)
  | None => true
  end.

(** The constants of lines 13-17. *)
Record constants : Type := Constants {
  TOKEN : option value;
  OWNER : option value;
  REPO : option value;
  FILE_PATH : string;
  BRANCH : value
}.

(** How loading the module ends: [process.exit(code)], or the server
    listening on [PORT] with its constants. *)
Inductive started : Type :=
| Exited (code : nat)
| Listening (c : constants) (PORT : value).

(** The top level of [server.js], lines 13-22 and 126-127. *)
Definition startup (env : process_env) : started :=
  let TOKEN := env_var env "GITHUB_TOKEN" in
  let OWNER := env_var env "GITHUB_OWNER" in
  let REPO := env_var env "GITHUB_REPO" in
  let FILE_PATH := "reviews.json" in
  let BRANCH := js_or (env_var env "GITHUB_BRANCH") (JStr "main") in
  if js_not TOKEN || js_not OWNER || js_not REPO then Exited 1
  else
    let PORT := js_or (env_var env "PORT") (JNum 4000) in
    Listening (Constants TOKEN OWNER REPO FILE_PATH BRANCH) PORT.

(** The variables [startup] reads. *)
Definition variables : list string :=
  ["GITHUB_TOKEN"; "GITHUB_OWNER"; "GITHUB_REPO"; "GITHUB_BRANCH"; "PORT"].

(** ** Reading answers and traces *)


(** An update that went through. *)
Definition wrote (c : call) : bool :=
  match c with
  | Updated _ _ (inr _) => true
  | _ => false
  end.

(** * Properties *)

(** ** The selection step *)

(** C1. For an index inside the list, [selectAndRemove] returns the
    element at that index together with the list without that one
    occurrence: the elements before it and the elements after it, in
    their order, one element fewer. *)
Theorem selectAndRemove_residual (index : nat) (reviews : list value) :
  index < length reviews ->
  exists chosen before after,
    reviews = before ++ chosen :: after /\
    length before = index /\
    reviews !! index = Some chosen /\
    selectAndRemove index reviews = (Some chosen, before ++ after) /\
    length (snd (selectAndRemove index reviews)) = length reviews - 1 /\
    reviews ≡ₚ chosen :: snd (selectAndRemove index reviews).
Proof.
  intros Hlt.
  destruct (lookup_lt_is_Some_2 reviews index Hlt) as [chosen Hchosen].
  exists chosen, (take index reviews), (drop (S index) reviews).
  unfold selectAndRemove; cbn [snd].
  rewrite Hchosen, delete_take_drop.
  repeat split.
  - symmetry. by apply take_drop_middle.
  - rewrite length_take. lia.
  - rewrite length_app, length_take, length_drop. lia.
  - rewrite <- delete_take_drop. by apply delete_Permutation.
Qed.

Lemma selectAndRemove_residual_witness :
  exists chosen before after,
    [JStr "A"; JStr "B"; JStr "C"] = before ++ chosen :: after /\
    length before = 1 /\
    [JStr "A"; JStr "B"; JStr "C"] !! 1 = Some chosen /\
    selectAndRemove 1 [JStr "A"; JStr "B"; JStr "C"] = (Some chosen, before ++ after) /\
    length (snd (selectAndRemove 1 [JStr "A"; JStr "B"; JStr "C"])) = 3 - 1 /\
    [JStr "A"; JStr "B"; JStr "C"] ≡ₚ chosen :: snd (selectAndRemove 1 [JStr "A"; JStr "B"; JStr "C"]).
Proof. apply (selectAndRemove_residual 1 [JStr "A"; JStr "B"; JStr "C"]). simpl. lia. Defined.

Lemma selectAndRemove_chosen (index : nat) (reviews : list value) :
  index < length reviews ->
  exists chosen,
    reviews !! index = Some chosen /\
    length (delete index reviews) = length reviews - 1.
Proof.
  intros Hlt.
  destruct (lookup_lt_is_Some_2 reviews index Hlt) as [chosen Hchosen].
  exists chosen. split; [done|].
  rewrite length_delete; [lia|]. by eexists.
Qed.

(** ** Running the handlers *)

Section Handlers.
Context `{P : Platform}.

Implicit Types (w : world) (b : blob) (json : value) (l : list value).

(** The fetch failed: both handlers answer 500 after that one call. *)
Lemma exec_next_review_unreachable random_index w e w1 :
  getContent w = (inl e, w1) ->
  exec (next_review random_index) w
  = (server_error "Internal server error", w1, [GotContent (inl e)]).
Proof.
  intros Hget. cbn. rewrite Hget. reflexivity.
Qed.

Lemma exec_next_review_invalid random_index w b w1 :
  getContent w = (inr b, w1) ->
  JSON_parse (content b) = None ->
  exec (next_review random_index) w
  = (server_error "Invalid JSON format in reviews.json", w1, [GotContent (inr b)]).
Proof.
  intros Hget Hparse. cbn. rewrite Hget. cbn. rewrite Hparse. reflexivity.
Qed.

(** The array read from the document is not empty: the request goes on
    to write the shortened list back, and its answer depends on how that
    call ends. *)
Lemma exec_next_review_draw random_index w b w1 json l res w2 :
  getContent w = (inr b, w1) ->
  JSON_parse (content b) = Some json ->
  prop_reviews json = inr (Some (JArr l)) ->
  l <> [] ->
  createOrUpdateFileContents
    (JSON_stringify (JObj [("reviews", JArr (delete (random_index (length l)) l))]))
    (sha b) w1 = (res, w2) ->
  exec (next_review random_index) w
  = (match res with
     | inl _ => server_error "Internal server error"
     | inr _ =>
         res_json 200
           [("done", Some (JBool false));
            ("review", l !! random_index (length l));
            ("remaining", Some (JNum (Z.of_nat (length (delete (random_index (length l)) l)))))]
     end,
     w2,
     [GotContent (inr b);
      Updated (JSON_stringify (JObj [("reviews", JArr (delete (random_index (length l)) l))]))
        (sha b) res]).
Proof.
  intros Hget Hparse Hreviews Hne Hput.
  cbn. rewrite Hget. cbn. rewrite Hparse. cbn. rewrite Hreviews. cbn.
  destruct l as [|x l]; [done|].
  cbn in Hput |- *. rewrite Hput. by destruct res as [e|[]].
Qed.

(** A non-empty array can only be the value of the [reviews] member
    itself, never the default. *)
Lemma js_or_nonempty_array (r : option value) :
  negb (Array_isArray (js_or r (JArr []))) || (length (elements (js_or r (JArr []))) =? 0)%nat
  = false ->
  exists l, r = Some (JArr l) /\ l <> [] /\ js_or r (JArr []) = JArr l.
Proof.
  destruct r as [[| [] | n | s | l | m]|]; cbn; try done.
  - destruct (n =? 0)%Z; cbn; done.
  - destruct (String.eqb s ""); cbn; done.
  - destruct l; cbn; [done|]. intros _. by eexists.
Qed.

(** Every run of [GET /next-review] is of one of two kinds.  Either it
    makes a single call, the [getContent], or it read a non-empty array,
    and then it makes exactly one more call, the update with the sha of
    the blob it read, whose outcome decides the answer. *)
Lemma exec_next_review_inv random_index w resp w' tr :
  exec (next_review random_index) w = (resp, w', tr) ->
  (exists r, tr = [GotContent r] /\ getContent w = (r, w')) \/
  (exists b w1 json l res,
      getContent w = (inr b, w1) /\
      JSON_parse (content b) = Some json /\
      prop_reviews json = inr (Some (JArr l)) /\
      l <> [] /\
      createOrUpdateFileContents
        (JSON_stringify (JObj [("reviews", JArr (delete (random_index (length l)) l))]))
        (sha b) w1 = (res, w') /\
      tr = [GotContent (inr b);
            Updated (JSON_stringify
                       (JObj [("reviews", JArr (delete (random_index (length l)) l))]))
              (sha b) res] /\
      resp = match res with
             | inl _ => server_error "Internal server error"
             | inr _ =>
                 res_json 200
                   [("done", Some (JBool false));
                    ("review", l !! random_index (length l));
                    ("remaining",
                      Some (JNum (Z.of_nat (length (delete (random_index (length l)) l)))))]
             end).
Proof.
  intros Hexec.
  destruct (getContent w) as [[e|b] w1] eqn:Hget.
  { rewrite (exec_next_review_unreachable _ _ _ _ Hget) in Hexec.
    injection Hexec as <- <- <-. left. by eexists. }
  destruct (JSON_parse (content b)) as [json|] eqn:Hparse.
  2: { rewrite (exec_next_review_invalid _ _ _ _ Hget Hparse) in Hexec.
       injection Hexec as <- <- <-. left. by eexists. }
  destruct (prop_reviews json) as [e|r] eqn:Hreviews.
  { revert Hexec. cbn. rewrite Hget. cbn. rewrite Hparse. cbn. rewrite Hreviews. cbn.
    intros [= <- <- <-]. left. by eexists. }
  destruct (negb (Array_isArray (js_or r (JArr [])))
            || (length (elements (js_or r (JArr []))) =? 0)%nat) eqn:Hempty.
  { revert Hexec. cbn. rewrite Hget. cbn. rewrite Hparse. cbn. rewrite Hreviews. cbn.
    rewrite Hempty. cbn.
    intros [= <- <- <-]. left. by eexists. }
  destruct (js_or_nonempty_array r Hempty) as (l & -> & Hne & _).
  destruct (createOrUpdateFileContents
              (JSON_stringify (JObj [("reviews", JArr (delete (random_index (length l)) l))]))
              (sha b) w1) as [res w2] eqn:Hput.
  rewrite (exec_next_review_draw _ _ _ _ _ _ _ _ Hget Hparse Hreviews Hne Hput) in Hexec.
  injection Hexec as <- <- <-. right. by exists b, w1, json, l, res.
Qed.

(** ** [GET /next-review], one request *)

(** C9. When the content of the file is the JSON value [null], reading
    its [reviews] property throws, and the request is answered by the
    outer handler with 500 and the generic message, after the one fetch
    and without any write. *)
Theorem next_review_null random_index w b w1 :
  getContent w = (inr b, w1) ->
  JSON_parse (content b) = Some JNull ->
  exec (next_review random_index) w
  = (server_error "Internal server error", w1, [GotContent (inr b)]).
Proof.
  intros Hget Hparse. cbn. rewrite Hget. cbn. rewrite Hparse. reflexivity.
Qed.

(** The [reviews] value of a document other than [null] is not a
    non-empty array: the request ends with the terminal answer after the
    one fetch. *)
Lemma exec_next_review_exhausted random_index w b w1 json r :
  getContent w = (inr b, w1) ->
  JSON_parse (content b) = Some json ->
  prop_reviews json = inr r ->
  Array_isArray (js_or r (JArr [])) = false \/ js_or r (JArr []) = JArr [] ->
  exec (next_review random_index) w = (exhausted, w1, [GotContent (inr b)]).
Proof.
  intros Hget Hparse Hreviews Hempty.
  cbn. rewrite Hget. cbn. rewrite Hparse. cbn. rewrite Hreviews. cbn.
  destruct Hempty as [-> | ->]; reflexivity.
Qed.

(** In particular every document other than [null] whose [reviews] is
    absent, or is not an array, is treated as an empty list. *)
Lemma exec_next_review_without_list random_index w b w1 json :
  getContent w = (inr b, w1) ->
  JSON_parse (content b) = Some json ->
  json <> JNull ->
  (forall l, prop_reviews json <> inr (Some (JArr l))) ->
  exec (next_review random_index) w = (exhausted, w1, [GotContent (inr b)]).
Proof.
  intros Hget Hparse Hnull Hlist.
  destruct (prop_reviews json) as [e|r] eqn:Hreviews.
  { destruct json; try done. }
  apply (exec_next_review_exhausted _ w b w1 json r Hget Hparse Hreviews).
  destruct r as [[| [] | n | s | l | m]|]; cbn; auto.
  - destruct (n =? 0)%Z; auto.
  - destruct (String.eqb s ""); auto.
  - by destruct (Hlist l).
Qed.

Lemma getContent_remote w b w1 :
  getContent w = (inr b, w1) -> content b = remote w1 /\ sha b = blob_sha (remote w1).
Proof.
  unfold getContent. destruct (arrive w) as [[e|] w0]; intros [= <- <-]; done.
Qed.

(** C4. When the list read from the file is empty (the [reviews] value
    is an empty array, or it is absent or not an array and so counts as
    one), the request answers 200 with [done: true], [review: null] and
    the message; its only call is the fetch, so nothing is written and
    the file still holds the text that was read. *)
Theorem next_review_empty random_index w b w1 json r :
  getContent w = (inr b, w1) ->
  JSON_parse (content b) = Some json ->
  prop_reviews json = inr r ->
  Array_isArray (js_or r (JArr [])) = false \/ js_or r (JArr []) = JArr [] ->
  exists resp w' tr,
    exec (next_review random_index) w = (resp, w', tr) /\
    resp = Response 200
             (JObj [("done", JBool true);
                    ("message", JStr "No reviews left in file.");
                    ("review", JNull)]) /\
    forallb (fun c => negb (is_update c)) tr = true /\
    tr = [GotContent (inr b)] /\
    remote w' = content b.
Proof.
  intros Hget Hparse Hreviews Hempty.
  exists exhausted, w1, [GotContent (inr b)].
  split; [by eapply exec_next_review_exhausted|].
  repeat split. symmetry. by apply (getContent_remote w).
Qed.

(** C5. A run whose update is refused as a conflict consists of exactly
    two calls, the fetch and that one update: there is no second fetch
    and no second write.  The request is answered 500. *)
Theorem next_review_conflict_not_retried random_index w resp w' tr c s :
  exec (next_review random_index) w = (resp, w', tr) ->
  Updated c s (inl ConflictError) ∈ tr ->
  resp = Response 500 (JObj [("error", JStr "Internal server error")]) /\
  exists b, tr = [GotContent (inr b); Updated c s (inl ConflictError)] /\ s = sha b.
Proof.
  intros Hexec Hin.
  destruct (exec_next_review_inv _ _ _ _ _ Hexec)
    as [(r & -> & _) | (b & w1 & json & l & res & _ & _ & _ & _ & _ & -> & ->)].
  - apply list_elem_of_singleton in Hin. discriminate.
  - apply elem_of_cons in Hin as [Hin | Hin]; [discriminate|].
    apply list_elem_of_singleton in Hin. injection Hin as -> -> <-.
    split; [done|]. by exists b.
Qed.

(** C7. A run whose update succeeded read a non-empty array; it answers
    200 with [done: false], the element at the drawn index as [review],
    and as [remaining] the length of the array without that element, one
    less than the length read.  The text written is that shortened
    array. *)
Theorem next_review_success random_index w resp w' tr c s :
  in_range random_index ->
  exec (next_review random_index) w = (resp, w', tr) ->
  Updated c s (inr tt) ∈ tr ->
  exists b json l chosen residual,
    fst (getContent w) = inr b /\
    JSON_parse (content b) = Some json /\
    prop_reviews json = inr (Some (JArr l)) /\
    selectAndRemove (random_index (length l)) l = (Some chosen, residual) /\
    length residual = length l - 1 /\
    resp = Response 200
             (JObj [("done", JBool false); ("review", chosen);
                    ("remaining", JNum (Z.of_nat (length residual)))]) /\
    c = JSON_stringify (JObj [("reviews", JArr residual)]) /\
    remote w' = c.
Proof.
  intros Hrange Hexec Hin.
  destruct (exec_next_review_inv _ _ _ _ _ Hexec)
    as [(r & -> & _) | (b & w1 & json & l & res & Hget & Hparse & Hreviews & Hne & Hput & -> & ->)].
  { apply list_elem_of_singleton in Hin. discriminate. }
  apply elem_of_cons in Hin as [Hin | Hin]; [discriminate|].
  apply list_elem_of_singleton in Hin. injection Hin as -> -> <-.
  assert (Hlt : random_index (length l) < length l).
  { apply Hrange. destruct l; [done|]. cbn. lia. }
  destruct (selectAndRemove_chosen _ _ Hlt) as (chosen & Hchosen & Hlen).
  exists b, json, l, chosen, (delete (random_index (length l)) l).
  rewrite Hget. unfold selectAndRemove. rewrite Hchosen.
  repeat split; try done.
  revert Hput. unfold createOrUpdateFileContents.
  destruct (arrive w1) as [[e|] w0]; [done|].
  destruct (String.eqb _ _); [|done]. by intros [= <-].
Qed.

(** ** [GET /status] *)

(** A status request makes one call, the fetch, whatever comes back. *)
Lemma exec_get_status_calls w :
  exists resp,
    exec get_status w = (resp, snd (getContent w), [GotContent (fst (getContent w))]).
Proof.
  cbn. destruct (getContent w) as [[e|b] w1]; cbn; [by eexists|].
  destruct (JSON_parse (content b)) as [json|]; cbn; [|by eexists].
  destruct (prop_reviews json) as [e|r]; cbn; [by eexists|].
  destruct (prop_length (js_or r (JArr []))) as [e|len]; cbn; by eexists.
Qed.

(** The count is the [length] property of the [reviews] value, or of the
    empty array when that value is falsy. *)
Lemma exec_get_status_count w b w1 json r len :
  getContent w = (inr b, w1) ->
  JSON_parse (content b) = Some json ->
  prop_reviews json = inr r ->
  prop_length (js_or r (JArr [])) = inr len ->
  exec get_status w = (res_json 200 [("count", len)], w1, [GotContent (inr b)]).
Proof.
  intros Hget Hparse Hreviews Hlen.
  cbn. rewrite Hget. cbn. rewrite Hparse. cbn. rewrite Hreviews. cbn.
  rewrite Hlen. reflexivity.
Qed.

Lemma getContent_world w : snd (getContent w) = snd (arrive w).
Proof. unfold getContent. by destruct (arrive w) as [[e|] w0]. Qed.

Lemma undisturbed_arrive w :
  undisturbed w = true ->
  undisturbed (snd (arrive w)) = true /\ remote (snd (arrive w)) = remote w.
Proof.
  unfold undisturbed, arrive. destruct w as [text [|[| e | c] events]]; cbn; done.
Qed.

Lemma undisturbed_after_events n w :
  undisturbed w = true -> remote (after_events n w) = remote w.
Proof.
  revert w. induction n as [|n IH]; intros w Hw; [done|].
  destruct (undisturbed_arrive w Hw) as [Hw' Hremote].
  cbn. by rewrite IH, Hremote.
Qed.

Lemma serve_status_frame n w :
  exists rs tr,
    serve_status n w = (rs, after_events n w, tr) /\
    length rs = n /\ length tr = n /\
    forallb (fun c => negb (is_update c)) tr = true.
Proof.
  revert w. induction n as [|n IH]; intros w; [by exists [], []|].
  destruct (exec_get_status_calls w) as [resp Hexec].
  destruct (IH (snd (getContent w))) as (rs & tr & Hrest & Hrs & Htr & Hpure).
  exists (resp :: rs), (GotContent (fst (getContent w)) :: tr).
  cbn [serve_status]. rewrite Hexec, Hrest.
  cbn. rewrite getContent_world, Hrs, Htr, Hpure. done.
Qed.

(** C8. Status requests never write.  Any number of them in a row makes
    that many calls, none of them an update, and leaves the world as the
    environment alone would have left it; when no other writer commits
    meanwhile, the file holds the text it held before.  A status request
    that fetches and parses its document answers 200 with the [length]
    of the [reviews] value (of the empty array when that value is falsy)
    as [count]; for a document whose [reviews] is an array this is the
    number of its elements. *)
Theorem get_status_pure :
  (forall n w,
      exists rs tr,
        serve_status n w = (rs, after_events n w, tr) /\
        length rs = n /\ length tr = n /\
        forallb (fun c => negb (is_update c)) tr = true /\
        (undisturbed w = true -> remote (after_events n w) = remote w)) /\
  (forall w b w1 json r len,
      getContent w = (inr b, w1) ->
      JSON_parse (content b) = Some json ->
      prop_reviews json = inr r ->
      prop_length (js_or r (JArr [])) = inr len ->
      exec get_status w = (res_json 200 [("count", len)], w1, [GotContent (inr b)])) /\
  (forall w b w1 json l,
      getContent w = (inr b, w1) ->
      JSON_parse (content b) = Some json ->
      prop_reviews json = inr (Some (JArr l)) ->
      exec get_status w
      = (Response 200 (JObj [("count", JNum (Z.of_nat (length l)))]), w1,
         [GotContent (inr b)])).
Proof.
  split; [|split].
  - intros n w. destruct (serve_status_frame n w) as (rs & tr & Hrun & Hrs & Htr & Hpure).
    exists rs, tr. repeat split; try done. apply undisturbed_after_events.
  - intros w b w1 json r len. apply exec_get_status_count.
  - intros w b w1 json l Hget Hparse Hreviews.
    by rewrite (exec_get_status_count w b w1 json _ _ Hget Hparse Hreviews eq_refl).
Qed.

(** C10. The two handlers disagree on a document whose [reviews] is a
    non-empty string: the status request answers with the length of the
    string as [count] (3 for the string abc), while a draw on the same
    document finds no array and gives the terminal answer. *)
Theorem status_disagrees_with_draw random_index w b w1 json s :
  getContent w = (inr b, w1) ->
  JSON_parse (content b) = Some json ->
  prop_reviews json = inr (Some (JStr s)) ->
  s <> "" ->
  exec get_status w
  = (Response 200 (JObj [("count", JNum (Z.of_nat (String.length s)))]), w1,
     [GotContent (inr b)]) /\
  exec (next_review random_index) w
  = (Response 200
       (JObj [("done", JBool true); ("message", JStr "No reviews left in file.");
              ("review", JNull)]), w1,
     [GotContent (inr b)]).
Proof.
  intros Hget Hparse Hreviews Hs.
  assert (Hor : js_or (Some (JStr s)) (JArr []) = JStr s).
  { cbn. destruct (String.eqb_spec s ""); done. }
  split.
  - rewrite (exec_get_status_count w b w1 json _ (Some (JNum (Z.of_nat (String.length s))))
               Hget Hparse Hreviews); [done|].
    by rewrite Hor.
  - apply (exec_next_review_exhausted _ w b w1 json _ Hget Hparse Hreviews).
    left. by rewrite Hor.
Qed.

(** ** A calm environment *)

Lemma calm_arrive w :
  calm w = true ->
  exists w', arrive w = (None, w') /\ remote w' = remote w /\ calm w' = true.
Proof.
  unfold calm, arrive. destruct w as [text [|[| e | c] events]]; cbn; try done.
  - intros _. by eexists.
  - intros Hcalm. by eexists.
Qed.

Lemma calm_getContent w :
  calm w = true ->
  exists w',
    getContent w = (inr (Blob (remote w) (blob_sha (remote w))), w') /\
    remote w' = remote w /\ calm w' = true.
Proof.
  intros Hcalm. destruct (calm_arrive w Hcalm) as (w' & Harrive & Hremote & Hcalm').
  exists w'. unfold getContent. rewrite Harrive, Hremote. done.
Qed.

(** With nobody else around, an update carrying the sha of the current
    text goes through. *)
Lemma calm_update_current w c :
  calm w = true ->
  exists w',
    createOrUpdateFileContents c (blob_sha (remote w)) w = (inr tt, w') /\
    remote w' = c /\ calm w' = true.
Proof.
  intros Hcalm. destruct (calm_arrive w Hcalm) as (w' & Harrive & Hremote & Hcalm').
  exists (World c (plan w')). unfold createOrUpdateFileContents.
  rewrite Harrive, Hremote, String.eqb_refl. done.
Qed.

(** An update carrying the sha of another text is refused. *)
Lemma calm_update_stale w c expected :
  calm w = true ->
  expected <> blob_sha (remote w) ->
  exists w',
    createOrUpdateFileContents c expected w = (inl ConflictError, w') /\
    remote w' = remote w /\ calm w' = true.
Proof.
  intros Hcalm Hstale. destruct (calm_arrive w Hcalm) as (w' & Harrive & Hremote & Hcalm').
  exists w'. unfold createOrUpdateFileContents. rewrite Harrive, Hremote.
  destruct (String.eqb_spec expected (blob_sha (remote w))); done.
Qed.

(** One draw from a non-empty list, alone with the file. *)
Lemma calm_draw random_index w json l :
  calm w = true ->
  JSON_parse (remote w) = Some json ->
  prop_reviews json = inr (Some (JArr l)) ->
  random_index (length l) < length l ->
  exists chosen w' tr,
    l !! random_index (length l) = Some chosen /\
    exec (next_review random_index) w
    = (drawn chosen (length (delete (random_index (length l)) l)), w', tr) /\
    remote w' = JSON_stringify (JObj [("reviews", JArr (delete (random_index (length l)) l))]) /\
    calm w' = true.
Proof.
  intros Hcalm Hparse Hreviews Hlt.
  destruct (calm_getContent w Hcalm) as (w1 & Hget & Hremote1 & Hcalm1).
  destruct (calm_update_current w1
              (JSON_stringify (JObj [("reviews", JArr (delete (random_index (length l)) l))]))
              Hcalm1) as (w2 & Hput & Hremote2 & Hcalm2).
  rewrite Hremote1 in Hput.
  destruct (selectAndRemove_chosen _ _ Hlt) as (chosen & Hchosen & _).
  exists chosen, w2. eexists. split; [done|].
  assert (Hne : l <> []) by (intros ->; cbn in Hlt; lia).
  rewrite (exec_next_review_draw random_index w _ w1 json l _ w2 Hget Hparse Hreviews Hne Hput).
  rewrite Hchosen. done.
Qed.

(** ** Drawing until nothing is left *)

(** C2. Start from a file whose list has N reviews and let N + 1 draws
    follow each other, with nobody else writing and no outage, whatever
    indices the random source gives.  The first N answers are draws;
    the reviews they return are the N reviews of the list, each
    occurrence once, in some order, with [remaining] counting down to 0.
    The last answer is the terminal one, and the list in the file is
    then empty. *)
Theorem draws_exhaust_the_list (Hrt : round_trips P) sources w json l :
  calm w = true ->
  JSON_parse (remote w) = Some json ->
  prop_reviews json = inr (Some (JArr l)) ->
  length sources = S (length l) ->
  Forall in_range sources ->
  exists order w' tr json',
    order ≡ₚ l /\
    serve_draws sources w = (countdown order ++ [exhausted], w', tr) /\
    length (countdown order) = length l /\
    JSON_parse (remote w') = Some json' /\
    prop_reviews json' = inr (Some (JArr [])).
Proof.
  revert w json l.
  induction sources as [|random_index sources IH]; intros w json l Hcalm Hparse Hreviews Hlen Hrange;
    [done|].
  apply Forall_cons in Hrange as [Hfirst Hrange].
  destruct l as [|x l].
  - destruct sources; [|done].
    destruct (calm_getContent w Hcalm) as (w1 & Hget & Hremote1 & Hcalm1).
    exists [], w1, [GotContent (inr (Blob (remote w) (blob_sha (remote w))))], json.
    cbn [serve_draws].
    rewrite (exec_next_review_exhausted random_index w _ w1 json _ Hget Hparse Hreviews);
      [|by right].
    rewrite Hremote1. done.
  - assert (Hlt : random_index (length (x :: l)) < length (x :: l)).
    { apply Hfirst. cbn. lia. }
    destruct (calm_draw random_index w json (x :: l) Hcalm Hparse Hreviews Hlt)
      as (chosen & w1 & tr1 & Hchosen & Hexec & Hremote1 & Hcalm1).
    set (residual := delete (random_index (length (x :: l))) (x :: l)) in *.
    assert (Hresidual : length residual = length l).
    { unfold residual. rewrite length_delete by (by eexists). cbn. lia. }
    destruct (IH w1 (JObj [("reviews", JArr residual)]) residual Hcalm1)
      as (order & w' & tr & json' & Hperm & Hrest & Hcount & Hparse' & Hreviews');
      [by rewrite Hremote1, Hrt | done | cbn in Hlen; lia | done |].
    exists (chosen :: order), w', (tr1 ++ tr), json'.
    cbn [serve_draws]. rewrite Hexec, Hrest.
    repeat split; try done.
    + rewrite Hperm. symmetry. by apply delete_Permutation.
    + cbn [countdown app]. do 3 f_equal.
      by rewrite (Permutation_length Hperm).
    + cbn. rewrite Hcount. lia.
Qed.

(** ** Two draws in flight *)

(** Serving the next call of a request and then the rest of it is
    running the request. *)
Lemma exec_advance {A : Type} (p : io A) w :
  exec p w
  = (let '(p', w1, tr1) := advance p w in
     let '(a, w2, tr2) := exec p' w1 in
     (a, w2, tr1 ++ tr2)).
Proof.
  destruct p as [a|k|c s k]; cbn.
  - reflexivity.
  - destruct (getContent w) as [r w1]. by destruct (exec (k r) w1) as [[a w2] tr2].
  - destruct (createOrUpdateFileContents c s w) as [r w1].
    by destruct (exec (k r) w1) as [[a w2] tr2].
Qed.

(** The first call of a draw is its fetch.  When it reads a non-empty
    array, the request is then waiting to send its update, and will
    answer as soon as that call returns. *)
Lemma advance_next_review_fetch random_index w b w1 json l :
  getContent w = (inr b, w1) ->
  JSON_parse (content b) = Some json ->
  prop_reviews json = inr (Some (JArr l)) ->
  l <> [] ->
  exists k,
    advance (next_review random_index) w
    = (CreateOrUpdateFileContents
         (JSON_stringify (JObj [("reviews", JArr (delete (random_index (length l)) l))]))
         (sha b) k,
       w1, [GotContent (inr b)]) /\
    (forall e, k (inl e) = Ret (server_error "Internal server error")) /\
    k (inr tt)
    = Ret (res_json 200
             [("done", Some (JBool false));
              ("review", l !! random_index (length l));
              ("remaining",
                Some (JNum (Z.of_nat (length (delete (random_index (length l)) l)))))]).
Proof.
  intros Hget Hparse Hreviews Hne.
  destruct l as [|x l]; [done|].
  cbn. rewrite Hget. cbn. rewrite Hparse. cbn. rewrite Hreviews. cbn.
  eexists. split; [reflexivity|]. split; [intros e|]; reflexivity.
Qed.

(** C6. Two draws read the same blob, hence the same sha, before either
    of them writes; nobody else writes and there is no outage.  Whoever
    sends its update first wins: that update is accepted and its request
    answers with the review it drew.  The other update, carrying the same
    sha, is refused as a conflict and its request answers 500.  This holds
    for both orders of the two fetches and both orders of the two
    updates. *)
Theorem concurrent_draws_one_winner
    (Hrt : round_trips P) (Hsha : collision_free P)
    (first_fetch first_update : bool) (pick_a pick_b : nat -> nat) w json l :
  calm w = true ->
  JSON_parse (remote w) = Some json ->
  prop_reviews json = inr (Some (JArr l)) ->
  l <> [] ->
  in_range pick_a ->
  in_range pick_b ->
  exists review_a review_b w',
    l !! pick_a (length l) = Some review_a /\
    l !! pick_b (length l) = Some review_b /\
    let fetched := Blob (remote w) (blob_sha (remote w)) in
    let text_a := JSON_stringify (JObj [("reviews", JArr (delete (pick_a (length l)) l))]) in
    let text_b := JSON_stringify (JObj [("reviews", JArr (delete (pick_b (length l)) l))]) in
    interleave [first_fetch; negb first_fetch; first_update; negb first_update]
      (next_review pick_a) (next_review pick_b) w
    = (if first_update
       then (Ret (drawn review_a (length l - 1)),
             Ret (server_error "Internal server error"),
             w',
             [GotContent (inr fetched); GotContent (inr fetched);
              Updated text_a (sha fetched) (inr tt);
              Updated text_b (sha fetched) (inl ConflictError)])
       else (Ret (server_error "Internal server error"),
             Ret (drawn review_b (length l - 1)),
             w',
             [GotContent (inr fetched); GotContent (inr fetched);
              Updated text_b (sha fetched) (inr tt);
              Updated text_a (sha fetched) (inl ConflictError)])) /\
    remote w' = (if first_update then text_a else text_b).
Proof.
  intros Hcalm Hparse Hreviews Hne Hrange_a Hrange_b.
  assert (Hpos : 0 < length l) by (destruct l; [done | cbn; lia]).
  destruct (selectAndRemove_chosen _ _ (Hrange_a _ Hpos)) as (review_a & Ha & Hlen_a).
  destruct (selectAndRemove_chosen _ _ (Hrange_b _ Hpos)) as (review_b & Hb & Hlen_b).
  (* the two fetches *)
  destruct (calm_getContent w Hcalm) as (w1 & Hget1 & Hremote1 & Hcalm1).
  destruct (calm_getContent w1 Hcalm1) as (w2 & Hget2 & Hremote2 & Hcalm2).
  rewrite Hremote1 in Hget2, Hremote2.
  destruct (advance_next_review_fetch pick_a w _ w1 json l Hget1 Hparse Hreviews Hne)
    as (ka1 & Hadv_a1 & Hka1_err & Hka1_ok).
  destruct (advance_next_review_fetch pick_a w1 _ w2 json l Hget2 Hparse Hreviews Hne)
    as (ka2 & Hadv_a2 & Hka2_err & Hka2_ok).
  destruct (advance_next_review_fetch pick_b w _ w1 json l Hget1 Hparse Hreviews Hne)
    as (kb1 & Hadv_b1 & Hkb1_err & Hkb1_ok).
  destruct (advance_next_review_fetch pick_b w1 _ w2 json l Hget2 Hparse Hreviews Hne)
    as (kb2 & Hadv_b2 & Hkb2_err & Hkb2_ok).
  (* the update of the request that writes first, and the late one *)
  assert (Hwinner : forall c, exists w3,
            createOrUpdateFileContents c (blob_sha (remote w)) w2 = (inr tt, w3) /\
            remote w3 = c /\ calm w3 = true).
  { intros c. rewrite <- Hremote2. by apply calm_update_current. }
  assert (Hloser : forall pick c w3,
            pick (length l) < length l ->
            remote w3 = JSON_stringify (JObj [("reviews", JArr (delete (pick (length l)) l))]) ->
            calm w3 = true ->
            exists w4,
              createOrUpdateFileContents c (blob_sha (remote w)) w3 = (inl ConflictError, w4) /\
              remote w4 = remote w3).
  { intros pick c w3 Hlt Hremote3 Hcalm3.
    destruct (calm_update_stale w3 c (blob_sha (remote w)) Hcalm3) as (w4 & Hput & Hremote4 & _).
    - intros Hsame. apply Hsha in Hsame.
      rewrite Hsame, Hremote3, Hrt in Hparse. injection Hparse as <-.
      cbn in Hreviews. injection Hreviews as Hl.
      apply (f_equal length) in Hl.
      destruct (selectAndRemove_chosen _ _ Hlt) as (? & _ & Hshort). lia.
    - by exists w4. }
  exists review_a, review_b.
  destruct first_update.
  - destruct (Hwinner (JSON_stringify (JObj [("reviews", JArr (delete (pick_a (length l)) l))])))
      as (w3 & Hput_a & Hremote3 & Hcalm3).
    destruct (Hloser pick_a
                (JSON_stringify (JObj [("reviews", JArr (delete (pick_b (length l)) l))]))
                w3 (Hrange_a _ Hpos) Hremote3 Hcalm3) as (w4 & Hput_b & Hremote4).
    exists w4. split; [done|]. split; [done|]. cbn zeta. split; [|congruence].
    destruct first_fetch; cbn [interleave negb].
    + rewrite Hadv_a1, Hadv_b2. cbn [advance sha]. rewrite Hput_a, Hput_b.
      rewrite Hka1_ok, Hkb2_err, Ha, Hlen_a. reflexivity.
    + rewrite Hadv_b1, Hadv_a2. cbn [advance sha]. rewrite Hput_a, Hput_b.
      rewrite Hka2_ok, Hkb1_err, Ha, Hlen_a. reflexivity.
  - destruct (Hwinner (JSON_stringify (JObj [("reviews", JArr (delete (pick_b (length l)) l))])))
      as (w3 & Hput_b & Hremote3 & Hcalm3).
    destruct (Hloser pick_b
                (JSON_stringify (JObj [("reviews", JArr (delete (pick_a (length l)) l))]))
                w3 (Hrange_b _ Hpos) Hremote3 Hcalm3) as (w4 & Hput_a & Hremote4).
    exists w4. split; [done|]. split; [done|]. cbn zeta. split; [|congruence].
    destruct first_fetch; cbn [interleave negb].
    + rewrite Hadv_a1, Hadv_b2. cbn [advance sha]. rewrite Hput_b, Hput_a.
      rewrite Hkb2_ok, Hka1_err, Hb, Hlen_b. reflexivity.
    + rewrite Hadv_b1, Hadv_a2. cbn [advance sha]. rewrite Hput_b, Hput_a.
      rewrite Hkb1_ok, Hka2_err, Hb, Hlen_b. reflexivity.
Qed.

End Handlers.

(** * Further properties of the handlers *)

Section Requests.
Context `{P : Platform}.

Implicit Types (w : world) (b : blob) (json : value) (l : list value).

(** ** Failures before the list is known *)

Lemma getContent_outage w e w1 :
  getContent w = (inl e, w1) -> w1 = snd (arrive w) /\ remote w1 = remote w.
Proof.
  unfold getContent, arrive.
  destruct w as [text [|[| e' | c] events]]; cbn; intros [= <- <-]; done.
Qed.

(** X4. When the fetch fails, both handlers answer 500 with the generic
    message after that one call; nothing is written and the file is as
    it was. *)
Theorem fetch_failure_answers_500 random_index w e w1 :
  getContent w = (inl e, w1) ->
  exec (next_review random_index) w
  = (Response 500 (JObj [("error", JStr "Internal server error")]), w1,
     [GotContent (inl e)]) /\
  exec get_status w
  = (Response 500 (JObj [("error", JStr "Internal server error")]), w1,
     [GotContent (inl e)]) /\
  remote w1 = remote w.
Proof.
  intros Hget. split; [|split].
  - by apply exec_next_review_unreachable.
  - cbn. rewrite Hget. reflexivity.
  - by destruct (getContent_outage w e w1 Hget).
Qed.

(** X5. When the file is not valid JSON, the draw answers 500 with its
    own message and the status answers 500 with the generic one; each
    makes the one fetch and writes nothing. *)
Theorem invalid_json_answers_500 random_index w b w1 :
  getContent w = (inr b, w1) ->
  JSON_parse (content b) = None ->
  exec (next_review random_index) w
  = (Response 500 (JObj [("error", JStr "Invalid JSON format in reviews.json")]), w1,
     [GotContent (inr b)]) /\
  exec get_status w
  = (Response 500 (JObj [("error", JStr "Internal server error")]), w1,
     [GotContent (inr b)]).
Proof.
  intros Hget Hparse. split.
  - by apply exec_next_review_invalid.
  - cbn. rewrite Hget. cbn. rewrite Hparse. reflexivity.
Qed.

(** X6. When the content of the file is the JSON value [null], the
    status request answers 500 with the generic message, as the draw
    does. *)
Theorem get_status_null w b w1 :
  getContent w = (inr b, w1) ->
  JSON_parse (content b) = Some JNull ->
  exec get_status w
  = (Response 500 (JObj [("error", JStr "Internal server error")]), w1,
     [GotContent (inr b)]).
Proof.
  intros Hget Hparse. cbn. rewrite Hget. cbn. rewrite Hparse. reflexivity.
Qed.

(** X7. When [reviews] is absent or falsy ([null], [false], 0, the empty
    string), both handlers see an empty list: the status counts 0 and the
    draw gives the terminal answer. *)
Theorem falsy_reviews_is_empty random_index w b w1 json r :
  getContent w = (inr b, w1) ->
  JSON_parse (content b) = Some json ->
  prop_reviews json = inr r ->
  js_not r = true ->
  exec get_status w
  = (Response 200 (JObj [("count", JNum 0)]), w1, [GotContent (inr b)]) /\
  exec (next_review random_index) w
  = (Response 200
       (JObj [("done", JBool true); ("message", JStr "No reviews left in file.");
              ("review", JNull)]), w1,
     [GotContent (inr b)]).
Proof.
  intros Hget Hparse Hreviews Hfalsy.
  assert (Hor : js_or r (JArr []) = JArr []).
  { destruct r as [v|]; [|done]. cbn in Hfalsy |- *.
    by destruct (truthy v). }
  split.
  - rewrite (exec_get_status_count w b w1 json r (Some (JNum 0)) Hget Hparse Hreviews);
      [done | by rewrite Hor].
  - apply (exec_next_review_exhausted _ w b w1 json r Hget Hparse Hreviews). by right.
Qed.

(** ** The shape of a draw *)



(** The answer of a run that made the fetch only. *)
Lemma exec_next_review_single random_index w resp w' r :
  exec (next_review random_index) w = (resp, w', [GotContent r]) ->
  resp = server_error "Internal server error" \/
  resp = server_error "Invalid JSON format in reviews.json" \/
  resp = exhausted.
Proof.
  cbn. destruct (getContent w) as [[e|b] w1]; cbn.
  { intros [= <- _ _]. by left. }
  destruct (JSON_parse (content b)) as [json|]; cbn.
  2: { intros [= <- _ _]. right. by left. }
  destruct (prop_reviews json) as [e|r']; cbn.
  { intros [= <- _ _]. by left. }
  destruct (negb _ || _); cbn.
  { intros [= <- _ _]. right. by right. }
  destruct (createOrUpdateFileContents _ _ w1) as [[e|[]] w2]; cbn; intros [= _ _ Htr];
    discriminate Htr.
Qed.

(** X8. Whatever the world does, a draw answers 200 or 500 and makes one
    call or two.  The first is the fetch.  A second call is made only
    when the document read holds a non-empty array; it is an update that
    carries the sha of the blob just read and, as text, that array
    without the element at the drawn index.  There is never a second
    fetch nor a second update. *)
Theorem next_review_protocol random_index w resp w' tr :
  exec (next_review random_index) w = (resp, w', tr) ->
  (status resp = 200 \/ status resp = 500) /\
  ((exists r, tr = [GotContent r]) \/
   (exists b json l res,
       tr = [GotContent (inr b);
             Updated (JSON_stringify
                        (JObj [("reviews", JArr (delete (random_index (length l)) l))]))
               (sha b) res] /\
       JSON_parse (content b) = Some json /\
       prop_reviews json = inr (Some (JArr l)) /\
       l <> [])).
Proof.
  intros Hexec.
  destruct (exec_next_review_inv _ _ _ _ _ Hexec)
    as [(r & -> & _) | (b & w1 & json & l & res & _ & Hparse & Hreviews & Hne & _ & -> & ->)].
  - split; [|left; by eexists].
    destruct (exec_next_review_single _ _ _ _ _ Hexec) as [-> | [-> | ->]]; cbn; auto.
  - split; [destruct res; cbn; auto|].
    right. by exists b, json, l, res.
Qed.


(** X10. A draw never overwrites what another writer committed after
    the draw's fetch: when such a commit lands before the update and its
    blob sha differs from the one fetched, the update is refused, the
    request answers 500, and the file holds the other writer's text. *)
Theorem draw_never_overwrites_commit random_index w b w1 json l c' rest :
  getContent w = (inr b, w1) ->
  plan w1 = Commit c' :: rest ->
  blob_sha c' <> sha b ->
  JSON_parse (content b) = Some json ->
  prop_reviews json = inr (Some (JArr l)) ->
  l <> [] ->
  exists newJson,
    exec (next_review random_index) w
    = (Response 500 (JObj [("error", JStr "Internal server error")]),
       World c' rest,
       [GotContent (inr b); Updated newJson (sha b) (inl ConflictError)]).
Proof.
  intros Hget Hplan Hsha Hparse Hreviews Hne.
  eexists.
  rewrite (exec_next_review_draw random_index w b w1 json l (inl ConflictError) (World c' rest)
             Hget Hparse Hreviews Hne); [reflexivity|].
  unfold createOrUpdateFileContents, arrive. rewrite Hplan. cbn.
  destruct (String.eqb_spec (sha b) (blob_sha c')) as [Heq|_]; [|done].
  by destruct Hsha.
Qed.

(** ** Draws among outages *)







(** ** Draws and counts together *)



(** The one call of a status request that reads a list ends it. *)
Lemma advance_get_status w b w1 json l :
  getContent w = (inr b, w1) ->
  JSON_parse (content b) = Some json ->
  prop_reviews json = inr (Some (JArr l)) ->
  advance get_status w
  = (Ret (Response 200 (JObj [("count", JNum (Z.of_nat (length l)))])), w1,
     [GotContent (inr b)]).
Proof.
  intros Hget Hparse Hreviews.
  cbn. rewrite Hget. cbn. rewrite Hparse. cbn. rewrite Hreviews. reflexivity.
Qed.

(** X14. A status request in flight never disturbs a draw.  With nobody
    else around, wherever the status request's fetch falls among the two
    calls of a draw, the draw's update is accepted and the draw answers
    with its review.  The status counts all N reviews when its fetch
    comes before the update, and N - 1 when it comes after. *)
Theorem status_does_not_disturb_draw (Hrt : round_trips P) random_index w json l :
  calm w = true ->
  JSON_parse (remote w) = Some json ->
  prop_reviews json = inr (Some (JArr l)) ->
  random_index (length l) < length l ->
  exists review,
    l !! random_index (length l) = Some review /\
    (forall schedule count,
        (schedule, count) ∈ [([false; true; true], length l);
                             ([true; false; true], length l);
                             ([true; true; false], length l - 1)] ->
        exists w' tr,
          interleave schedule (next_review random_index) get_status w
          = (Ret (drawn review (length l - 1)),
             Ret (Response 200 (JObj [("count", JNum (Z.of_nat count))])),
             w', tr) /\
          length (filter (fun c => wrote c = true) tr) = 1 /\
          remote w'
          = JSON_stringify (JObj [("reviews", JArr (delete (random_index (length l)) l))])).
Proof.
  intros Hcalm Hparse Hreviews Hlt.
  destruct (selectAndRemove_chosen _ _ Hlt) as (review & Hreview & Hshort).
  assert (Hne : l <> []) by (intros ->; cbn in Hlt; lia).
  exists review. split; [done|].
  set (text := JSON_stringify (JObj [("reviews", JArr (delete (random_index (length l)) l))])).
  intros schedule count Hin.
  destruct (calm_getContent w Hcalm) as (w1 & Hget1 & Hremote1 & Hcalm1).
  destruct (calm_getContent w1 Hcalm1) as (w2 & Hget2 & Hremote2 & Hcalm2).
  rewrite Hremote1 in Hget2, Hremote2.
  apply elem_of_cons in Hin as [Hin | Hin]; [|apply elem_of_cons in Hin as [Hin | Hin]];
    [| |apply list_elem_of_singleton in Hin]; injection Hin as -> ->.
  - (* status, fetch, update *)
    destruct (advance_next_review_fetch random_index w1 _ w2 json l Hget2 Hparse Hreviews Hne)
      as (k & Hadv & _ & Hk).
    destruct (calm_update_current w2 text Hcalm2) as (w3 & Hput & Hremote3 & _).
    rewrite Hremote2 in Hput.
    exists w3. eexists. cbn [interleave].
    rewrite (advance_get_status w _ w1 json l Hget1 Hparse Hreviews), Hadv.
    cbn [advance sha]. fold text. rewrite Hput, Hk, Hreview, Hshort.
    split; [reflexivity|]. by split.
  - (* fetch, status, update *)
    destruct (advance_next_review_fetch random_index w _ w1 json l Hget1 Hparse Hreviews Hne)
      as (k & Hadv & _ & Hk).
    destruct (calm_update_current w2 text Hcalm2) as (w3 & Hput & Hremote3 & _).
    rewrite Hremote2 in Hput.
    exists w3. eexists. cbn [interleave].
    rewrite Hadv, (advance_get_status w1 _ w2 json l Hget2 Hparse Hreviews).
    cbn [advance sha]. fold text. rewrite Hput, Hk, Hreview, Hshort.
    split; [reflexivity|]. by split.
  - (* fetch, update, status *)
    destruct (advance_next_review_fetch random_index w _ w1 json l Hget1 Hparse Hreviews Hne)
      as (k & Hadv & _ & Hk).
    destruct (calm_update_current w1 text Hcalm1) as (w3 & Hput & Hremote3 & Hcalm3).
    rewrite Hremote1 in Hput.
    destruct (calm_getContent w3 Hcalm3) as (w4 & Hget4 & Hremote4 & _).
    exists w4. eexists. cbn [interleave].
    rewrite Hadv. cbn [advance sha]. fold text. rewrite Hput, Hk, Hreview, Hshort.
    rewrite (advance_get_status w3 _ w4 (JObj [("reviews", JArr (delete (random_index (length l)) l))])
               (delete (random_index (length l)) l) Hget4);
      [|by cbn [content]; rewrite Hremote3; apply Hrt|done].
    rewrite Hshort. split; [reflexivity|]. split; [done|]. by rewrite Hremote4.
Qed.

(** X15. A draw keeps nothing of the document but its list.  Two files
    whose documents hold the same [reviews] array, whatever else they
    hold, get the same answer from a draw and hold the same text after
    it: an object whose only member is [reviews], the shortened array. *)
Theorem draw_keeps_only_the_list (Hrt : round_trips P) random_index w1 w2 json1 json2 l :
  calm w1 = true ->
  calm w2 = true ->
  JSON_parse (remote w1) = Some json1 ->
  JSON_parse (remote w2) = Some json2 ->
  prop_reviews json1 = inr (Some (JArr l)) ->
  prop_reviews json2 = inr (Some (JArr l)) ->
  random_index (length l) < length l ->
  exists resp w1' tr1 w2' tr2,
    exec (next_review random_index) w1 = (resp, w1', tr1) /\
    exec (next_review random_index) w2 = (resp, w2', tr2) /\
    remote w1' = remote w2' /\
    JSON_parse (remote w1')
    = Some (JObj [("reviews", JArr (delete (random_index (length l)) l))]).
Proof.
  intros Hcalm1 Hcalm2 Hparse1 Hparse2 Hreviews1 Hreviews2 Hlt.
  destruct (calm_draw random_index w1 json1 l Hcalm1 Hparse1 Hreviews1 Hlt)
    as (review1 & w1' & tr1 & Hreview1 & Hdraw1 & Hremote1 & _).
  destruct (calm_draw random_index w2 json2 l Hcalm2 Hparse2 Hreviews2 Hlt)
    as (review2 & w2' & tr2 & Hreview2 & Hdraw2 & Hremote2 & _).
  assert (review2 = review1) as -> by congruence.
  eexists _, w1', tr1, w2', tr2.
  split; [exact Hdraw1|]. split; [exact Hdraw2|].
  split; [congruence|]. by rewrite Hremote1, Hrt.
Qed.

End Requests.

(** * Start-up *)




(** X2. For [startup], a variable set to the empty text is the same as
    a variable that is not set. *)
Theorem startup_empty_is_unset (env : process_env) (name : string) :
  startup (<[name := ""]> env) = startup (delete name env).
Proof.
  assert (Hnot : forall k,
             js_not (env_var (<[name := ""]> env) k) = js_not (env_var (delete name env) k)).
  { intros k. unfold env_var. rewrite lookup_insert, lookup_delete. by case_decide. }
  assert (Hor : forall k default,
             js_or (env_var (<[name := ""]> env) k) default
             = js_or (env_var (delete name env) k) default).
  { intros k default. unfold env_var. rewrite lookup_insert, lookup_delete. by case_decide. }
  assert (Hvar : forall k,
             js_not (env_var (delete name env) k) = false ->
             env_var (<[name := ""]> env) k = env_var (delete name env) k).
  { intros k. unfold env_var. rewrite lookup_insert, lookup_delete. by case_decide. }
  unfold startup. rewrite !Hnot, !Hor.
  destruct (js_not (env_var (delete name env) "GITHUB_TOKEN")) eqn:Htoken; [done|].
  destruct (js_not (env_var (delete name env) "GITHUB_OWNER")) eqn:Howner; [done|].
  destruct (js_not (env_var (delete name env) "GITHUB_REPO")) eqn:Hrepo; [done|].
  cbn [orb]. by rewrite !Hvar.
Qed.

(** X3. [startup] reads five variables and nothing else: two
    environments that agree on them start the same way. *)
Theorem startup_reads_five_variables (env1 env2 : process_env) :
  (forall name, name ∈ variables -> env1 !! name = env2 !! name) ->
  startup env1 = startup env2.
Proof.
  intros Hagree. unfold startup, env_var.
  by rewrite !Hagree by (unfold variables; set_solver).
Qed.

(** ** The concrete codec reads back what it writes *)

Module JsonFacts.
Import Json.

#[local] Open Scope char_scope.

Ltac each_char c := destruct c as [[] [] [] [] [] [] [] []].

(** Decide the tests on the character at hand. *)
Ltac decide_chars := cbn [Ascii.eqb Bool.eqb andb orb is_ws].

Lemma skip_ws_repeat n s : skip_ws (repeat " " n ++ s) = skip_ws s.
Proof. induction n as [|n IH]; [done|]. exact IH. Qed.

Lemma skip_ws_indent depth s : skip_ws (indent depth ++ s) = skip_ws s.
Proof. unfold indent. cbn. apply skip_ws_repeat. Qed.

Lemma skip_ws_stop c s : is_ws c = false -> skip_ws (c :: s) = c :: s.
Proof. intros Hc. cbn. by rewrite Hc. Qed.

Lemma skip_ws_idemp s : skip_ws (skip_ws s) = skip_ws s.
Proof.
  induction s as [|c s IH]; [done|].
  cbn. destruct (is_ws c) eqn:Hc; [done|]. cbn. by rewrite Hc.
Qed.

Lemma opens_value_facts c :
  opens_value c = true ->
  is_ws c = false /\ Ascii.eqb c "]" = false /\ Ascii.eqb c "}" = false.
Proof. each_char c; cbn; intros; done. Qed.

Lemma closes_value_facts c s :
  closes_value (c :: s) = true ->
  digit_of c = None /\ continues_number (c :: s) = false.
Proof. each_char c; cbn; intros; done. Qed.

(** *** Numbers *)

Lemma parse_uint_print u rest :
  closes_value rest = true ->
  parse_uint (print_uint u ++ rest) = (u, rest).
Proof.
  intros Hrest.
  induction u as [|u IH|u IH|u IH|u IH|u IH|u IH|u IH|u IH|u IH|u IH];
    cbn; try (by rewrite IH).
  destruct rest as [|c rest]; [done|].
  cbn. by destruct (closes_value_facts c rest Hrest) as [-> _].
Qed.

Lemma print_uint_head u :
  u <> Decimal.Nil ->
  exists c s, print_uint u = c :: s /\ is_digit c = true /\ Ascii.eqb c "-" = false.
Proof. destruct u; [done|..]; intros _; by do 2 eexists. Qed.

Lemma to_int_nonnil n :
  match Z.to_int n with Decimal.Pos u | Decimal.Neg u => u <> Decimal.Nil end.
Proof.
  destruct n as [|p|p]; cbn; [done|..]; apply DecimalPos.Unsigned.to_uint_nonnil.
Qed.

Lemma to_uint_no_leading_zero p : leading_zero (Pos.to_uint p) = false.
Proof.
  pose proof (DecimalPos.Unsigned.to_of (Pos.to_uint p)) as Hnorm.
  rewrite DecimalPos.Unsigned.of_to in Hnorm. cbn [N.to_uint] in Hnorm.
  pose proof (DecimalPos.Unsigned.to_uint_nonzero p) as Hnonzero.
  pose proof (DecimalFacts.nzhead_nonzero (Pos.to_uint p)) as Hhead.
  unfold Decimal.unorm in Hnorm.
  destruct (Decimal.nzhead (Pos.to_uint p)) eqn:Hnz; rewrite Hnorm in *;
    first [done | by destruct (Hhead _ eq_refl)].
Qed.

Lemma to_int_no_leading_zero n :
  match Z.to_int n with Decimal.Pos u | Decimal.Neg u => leading_zero u = false end.
Proof. destruct n as [|p|p]; cbn; [done|..]; apply to_uint_no_leading_zero. Qed.

Lemma parse_number_print n rest :
  closes_value rest = true ->
  parse_number (print_number n ++ rest) = Some (n, rest).
Proof.
  intros Hrest. unfold print_number.
  pose proof (to_int_nonnil n) as Hnil. pose proof (DecimalZ.of_to n) as Hn.
  pose proof (to_int_no_leading_zero n) as Hzero.
  assert (Hcont : continues_number rest = false).
  { destruct rest as [|c rest]; [done|]. by destruct (closes_value_facts c rest Hrest). }
  destruct (Z.to_int n) as [u|u].
  - destruct (print_uint_head u Hnil) as (c & s & Hprint & _ & Hminus).
    unfold parse_number. rewrite Hprint. cbn [app]. rewrite Hminus.
    change (c :: s ++ rest) with ((c :: s) ++ rest). rewrite <- Hprint.
    rewrite (parse_uint_print u rest Hrest), Hzero, Hcont, Hn.
    by destruct u.
  - cbn -[Z.of_int leading_zero]. rewrite (parse_uint_print u rest Hrest), Hzero, Hcont, Hn.
    by destruct u.
Qed.

Lemma print_number_head n :
  exists c s, print_number n = c :: s /\ Ascii.eqb c "-" || is_digit c = true.
Proof.
  unfold print_number. pose proof (to_int_nonnil n) as Hnil.
  destruct (Z.to_int n) as [u|u].
  - destruct (print_uint_head u Hnil) as (c & s & -> & Hdigit & _).
    exists c, s. by rewrite Hdigit, orb_true_r.
  - by do 2 eexists.
Qed.

(** *** Strings *)

Lemma parse_string_char c tail :
  parse_string (print_char c ++ tail)
  = match parse_string tail with
    | Some (str, rest) => Some (String c str, rest)
    | None => None
    end.
Proof. each_char c; reflexivity. Qed.

Lemma parse_string_print s rest :
  parse_string (print_chars s ++ dquote :: rest) = Some (s, rest).
Proof.
  induction s as [|c s IH]; [done|].
  cbn [print_chars]. by rewrite <- app_assoc, parse_string_char, IH.
Qed.

(** *** Documents *)

Lemma value_nested_ind (Q : value -> Prop) :
  Q JNull ->
  (forall b, Q (JBool b)) ->
  (forall n, Q (JNum n)) ->
  (forall s, Q (JStr s)) ->
  (forall l, Forall Q l -> Q (JArr l)) ->
  (forall m, Forall (fun kv => Q (snd kv)) m -> Q (JObj m)) ->
  forall v, Q v.
Proof.
  intros Hnull Hbool Hnum Hstr Harr Hobj.
  fix IH 1. intros [|b|n|s|l|m]; [done..| |].
  - apply Harr. induction l as [|x l IHl]; constructor; [apply IH | apply IHl].
  - apply Hobj. induction m as [|[k x] m IHm]; constructor; [apply IH | apply IHm].
Qed.

Lemma print_value_head depth v :
  exists c s, print_value depth v = c :: s /\ opens_value c = true.
Proof.
  destruct v as [|[]|n|s|[|x l]|[|[k x] m]]; try by do 2 eexists.
  destruct (print_number_head n) as (c & s & Hprint & Hc).
  exists c, s. split; [done|].
  unfold opens_value. apply orb_true_iff in Hc as [Hc|Hc]; rewrite Hc, ?orb_true_r; done.
Qed.

Lemma skip_ws_print depth v rest :
  skip_ws (print_value depth v ++ rest) = print_value depth v ++ rest.
Proof.
  destruct (print_value_head depth v) as (c & s & -> & Hc).
  apply skip_ws_stop. by apply opens_value_facts.
Qed.

Lemma parse_value_skip_ws fuel s : parse_value fuel (skip_ws s) = parse_value fuel s.
Proof. destruct fuel; [done|]. cbn [parse_value]. by rewrite skip_ws_idemp. Qed.

Lemma parse_elements_skip_ws fuel s : parse_elements fuel (skip_ws s) = parse_elements fuel s.
Proof. destruct fuel; [done|]. cbn [parse_elements]. by rewrite parse_value_skip_ws. Qed.

Lemma parse_members_skip_ws fuel s : parse_members fuel (skip_ws s) = parse_members fuel s.
Proof. destruct fuel; [done|]. cbn [parse_members]. by rewrite skip_ws_idemp. Qed.

Lemma parse_elements_print l :
  Forall reads_back l ->
  forall x depth inner fuel rest,
    reads_back x ->
    S (weight x) + list_sum (map (fun y => S (weight y)) l) <= fuel ->
    parse_elements fuel
      (print_value inner x
         ++ flat_map (fun y => "," :: indent inner ++ print_value inner y) l
         ++ indent depth ++ "]" :: rest)
    = Some (x :: l, rest).
Proof.
  induction 1 as [|y l Hy _ IH]; intros x depth inner fuel rest Hx Hfuel.
  - destruct fuel as [|fuel]; [lia|]. cbn [parse_elements flat_map app].
    rewrite Hx; [|cbn in Hfuel; lia|done].
    rewrite skip_ws_indent. reflexivity.
  - destruct fuel as [|fuel]; [lia|]. cbn [parse_elements flat_map].
    rewrite Hx; [|cbn in Hfuel; lia|done].
    rewrite <- !app_assoc. cbn [app]. rewrite skip_ws_stop by done. decide_chars.
    rewrite <- !app_assoc.
    rewrite <- parse_elements_skip_ws, skip_ws_indent, parse_elements_skip_ws.
    rewrite (IH y depth inner fuel rest Hy); [done|].
    unfold list_sum in *. cbn in Hfuel |- *. lia.
Qed.

Lemma parse_members_key fuel k s :
  parse_members (S fuel) (print_string k ++ ":" :: " " :: s)
  = match parse_value fuel s with
    | None => None
    | Some (v, r) =>
        match skip_ws r with
        | [] => None
        | c :: r' =>
            if Ascii.eqb c "," then
              match parse_members fuel r' with
              | Some (m, rest) => Some ((k, v) :: m, rest)
              | None => None
              end
            else if Ascii.eqb c "}" then Some ([(k, v)], r')
            else None
        end
    end.
Proof.
  unfold print_string. cbn [parse_members app].
  rewrite skip_ws_stop by done. decide_chars.
  rewrite <- app_assoc. cbn [app]. rewrite parse_string_print.
  rewrite skip_ws_stop by done. decide_chars.
  rewrite <- parse_value_skip_ws. cbn [skip_ws]. decide_chars.
  by rewrite parse_value_skip_ws.
Qed.

Lemma parse_members_print m :
  Forall (fun kv => reads_back (snd kv)) m ->
  forall k x depth inner fuel rest,
    reads_back x ->
    S (weight x) + list_sum (map (fun kv => S (weight (snd kv))) m) <= fuel ->
    parse_members fuel
      (print_string k ++ ":" :: " " :: print_value inner x
         ++ flat_map (fun kv => "," :: indent inner ++ print_string (fst kv)
                                  ++ ":" :: " " :: print_value inner (snd kv)) m
         ++ indent depth ++ "}" :: rest)
    = Some ((k, x) :: m, rest).
Proof.
  induction 1 as [|[k' y] m Hy _ IH]; intros k x depth inner fuel rest Hx Hfuel.
  - destruct fuel as [|fuel]; [lia|].
    rewrite parse_members_key. cbn [flat_map app].
    rewrite Hx; [|cbn in Hfuel; lia|done].
    rewrite skip_ws_indent. reflexivity.
  - destruct fuel as [|fuel]; [lia|].
    rewrite parse_members_key. cbn [flat_map fst snd].
    rewrite Hx; [|cbn in Hfuel; lia|done].
    rewrite <- !app_assoc. cbn [app]. rewrite skip_ws_stop by done. decide_chars.
    rewrite <- !app_assoc. cbn [app].
    rewrite <- parse_members_skip_ws, skip_ws_indent, parse_members_skip_ws.
    rewrite (IH k' y depth inner fuel rest Hy); [done|].
    unfold list_sum in *. cbn in Hfuel |- *. lia.
Qed.

Lemma parse_value_number fuel c s :
  Ascii.eqb c "-" || is_digit c = true ->
  parse_value (S fuel) (c :: s)
  = match parse_number (c :: s) with
    | Some (n, rest) => Some (JNum n, rest)
    | None => None
    end.
Proof. each_char c; intros Hc; try discriminate Hc; reflexivity. Qed.

Lemma parse_value_array fuel inner depth x t :
  parse_value (S fuel) ("[" :: indent inner ++ print_value depth x ++ t)
  = match parse_elements fuel (print_value depth x ++ t) with
    | Some (l, rest) => Some (JArr l, rest)
    | None => None
    end.
Proof.
  cbn [parse_value]. rewrite skip_ws_stop by done. decide_chars.
  rewrite skip_ws_indent, skip_ws_print.
  destruct (print_value_head depth x) as (c & s & -> & Hc).
  destruct (opens_value_facts c Hc) as (_ & Hbracket & _).
  cbn [app]. by rewrite Hbracket.
Qed.

Lemma parse_value_object fuel inner k t :
  parse_value (S fuel) ("{" :: indent inner ++ print_string k ++ t)
  = match parse_members fuel (print_string k ++ t) with
    | Some (m, rest) => Some (JObj m, rest)
    | None => None
    end.
Proof.
  cbn [parse_value]. rewrite skip_ws_stop by done. decide_chars.
  rewrite skip_ws_indent. unfold print_string. cbn [app].
  rewrite skip_ws_stop by done. decide_chars. reflexivity.
Qed.

Theorem parse_value_print v : reads_back v.
Proof.
  induction v as [|b|n|s|l IH|m IH] using value_nested_ind;
    intros depth fuel rest Hfuel Hrest;
    (destruct fuel as [|fuel]; [cbn in Hfuel; lia|]).
  - reflexivity.
  - by destruct b.
  - cbn [print_value].
    destruct (print_number_head n) as (c & s & Hprint & Hc).
    rewrite Hprint. cbn [app]. rewrite (parse_value_number _ _ _ Hc).
    change (c :: s ++ rest) with ((c :: s) ++ rest).
    by rewrite <- Hprint, parse_number_print.
  - cbn [print_value parse_value]. unfold print_string. cbn [app].
    rewrite skip_ws_stop by done. decide_chars.
    rewrite <- app_assoc. cbn [app]. by rewrite parse_string_print.
  - destruct l as [|x l]; [reflexivity|].
    apply Forall_cons in IH as [Hx Hl].
    cbn [print_value app]. rewrite <- ?app_assoc. rewrite parse_value_array.
    cbn [app].
    rewrite (parse_elements_print l Hl x depth (2 + depth) fuel rest Hx); [done|].
    unfold list_sum in *. cbn in Hfuel |- *. lia.
  - destruct m as [|[k x] m]; [reflexivity|].
    apply Forall_cons in IH as [Hx Hm].
    cbn [print_value app]. rewrite <- ?app_assoc. rewrite parse_value_object.
    cbn [app]. rewrite <- ?app_assoc. cbn [app].
    rewrite (parse_members_print m Hm k x depth (2 + depth) fuel rest Hx); [done|].
    unfold list_sum in *. cbn in Hfuel |- *. lia.
Qed.

Lemma length_indent depth : length (indent depth) = S depth.
Proof. unfold indent. cbn. by rewrite repeat_length. Qed.

(** The length of a text is fuel enough to read it. *)
Lemma weight_print v : forall depth, weight v <= length (print_value depth v).
Proof.
  induction v as [|b|n|s|l IH|m IH] using value_nested_ind; intros depth.
  - cbn. lia.
  - destruct b; cbn; lia.
  - cbn [print_value]. destruct (print_number_head n) as (c & s & -> & _). cbn. lia.
  - cbn. lia.
  - destruct l as [|x l]; [cbn; lia|].
    apply Forall_cons in IH as [Hx Hl].
    cbn [print_value weight map]. unfold list_sum. cbn [foldr length].
    rewrite !length_app, !length_indent. specialize (Hx (2 + depth)).
    enough (foldr Nat.add 0 (map (fun y => S (weight y)) l)
            <= length (flat_map (fun y => "," :: indent (2 + depth)
                                            ++ print_value (2 + depth) y) l)) by lia.
    clear Hx. induction Hl as [|y l Hy _ IHl]; [done|].
    cbn [map foldr flat_map]. rewrite length_app. cbn [length].
    rewrite length_app, length_indent. specialize (Hy (2 + depth)). lia.
  - destruct m as [|[k x] m]; [cbn; lia|].
    apply Forall_cons in IH as [Hx Hm]. cbn [snd] in Hx.
    cbn [print_value weight map snd]. unfold list_sum. cbn [foldr length].
    rewrite !length_app. cbn [length]. rewrite !length_app, !length_indent.
    specialize (Hx (2 + depth)).
    enough (foldr Nat.add 0 (map (fun kv => S (weight (snd kv))) m)
            <= length (flat_map (fun kv => "," :: indent (2 + depth) ++ print_string (fst kv)
                                             ++ ":" :: " " :: print_value (2 + depth) (snd kv)) m))
      by lia.
    clear Hx. induction Hm as [|[k' y] m Hy _ IHm]; [done|].
    cbn [map foldr flat_map fst snd] in *. rewrite length_app. cbn [length].
    rewrite !length_app. cbn [length]. specialize (Hy (2 + depth)). lia.
Qed.

Theorem parse_stringify v : parse (stringify v) = Some v.
Proof.
  unfold parse, stringify, chars. rewrite list_ascii_of_string_of_list_ascii.
  pose proof (parse_value_print v 0 (S (length (print_value 0 v))) []) as Hread.
  rewrite app_nil_r in Hread. rewrite Hread; [done| |done].
  pose proof (weight_print v 0). lia.
Qed.

Lemma platform_round_trips : round_trips platform.
Proof. intros l. apply parse_stringify. Qed.

Lemma platform_collision_free : collision_free platform.
Proof. intros c c' Hsame. exact Hsame. Qed.

End JsonFacts.

(** ** Runs on the concrete platform *)

#[local] Existing Instance Json.platform.

Lemma pick_first_in_range : in_range pick_first.
Proof. intros len Hlen. exact Hlen. Qed.

Lemma pick_last_in_range : in_range pick_last.
Proof. intros len Hlen. unfold pick_last. lia. Qed.

Lemma pick_middle_in_range : in_range pick_middle.
Proof. intros len Hlen. unfold pick_middle. apply Nat.div_lt; lia. Qed.

Lemma parse_reviews_file l :
  JSON_parse (reviews_file l) = Some (JObj [("reviews", JArr l)]).
Proof. apply JsonFacts.parse_stringify. Qed.

(** The codec on a few texts. *)
Example parse_spaced :
  Json.parse " [1 , -20,{ } ] " = Some (JArr [JNum 1; JNum (-20); JObj []]).
Proof. reflexivity. Qed.

Example parse_leading_zero : Json.parse "[01]" = None.
Proof. reflexivity. Qed.

Example parse_truncated : Json.parse "nul" = None.
Proof. reflexivity. Qed.

(** The scenario of the specification: three draws empty the list A, B,
    C, and the fourth request finds nothing left. *)
Example scenario_abc :
  let '(answers, w, tr) :=
    serve_draws [pick_middle; pick_first; pick_last; pick_middle]
      (World (reviews_file abc) []) in
  answers = [drawn (JStr "B") 2; drawn (JStr "A") 1; drawn (JStr "C") 0; exhausted] /\
  w = World (reviews_file []) [] /\
  length (filter (fun c => is_update c = true) tr) = 3.
Proof. vm_compute. repeat split. Qed.

(** What [count] is when [reviews] is not an array: the [length] member
    of an object, and no [count] at all for a number. *)
Example status_of_object :
  fst (fst (exec get_status
              (World (Json.stringify (JObj [("reviews", JObj [("length", JNum 5)])])) [])))
  = Response 200 (JObj [("count", JNum 5)]).
Proof. vm_compute. reflexivity. Qed.

Example status_of_number :
  fst (fst (exec get_status (World (Json.stringify (JObj [("reviews", JNum 7)])) [])))
  = Response 200 (JObj []).
Proof. vm_compute. reflexivity. Qed.

(** C3. The text [null] is valid JSON and has no [reviews] member, yet a
    draw on it does not give the terminal answer: it is answered 500 by
    the generic handler, because reading a property of [null] throws.
    Every other document without a list is treated as an empty list, as
    the number 7 and the empty object are here. *)
Theorem next_review_fails_on_null_text (random_index : nat -> nat) :
  JSON_parse "null" = Some JNull /\
  exec (next_review random_index) (World "null" [])
  = (Response 500 (JObj [("error", JStr "Internal server error")]),
     World "null" [], [GotContent (inr (Blob "null" "null"))]) /\
  exec (next_review random_index) (World "7" [])
  = (exhausted, World "7" [], [GotContent (inr (Blob "7" "7"))]) /\
  exec (next_review random_index) (World "{}" [])
  = (exhausted, World "{}" [], [GotContent (inr (Blob "{}" "{}"))]).
Proof. repeat split. Qed.

Lemma next_review_null_witness :
  getContent (World "null" [Quiet]) = (inr (Blob "null" "null"), World "null" []) /\
  JSON_parse "null" = Some JNull /\
  exec (next_review pick_first) (World "null" [Quiet])
  = (server_error "Internal server error", World "null" [],
     [GotContent (inr (Blob "null" "null"))]).
Proof.
  split; [reflexivity|]. split; [reflexivity|].
  apply (next_review_null pick_first (World "null" [Quiet]) (Blob "null" "null")
           (World "null" [])); reflexivity.
Defined.

Lemma next_review_empty_witness :
  JSON_parse (reviews_file []) = Some (JObj [("reviews", JArr [])]) /\
  exists resp w' tr,
    exec (next_review pick_last) (World (reviews_file []) []) = (resp, w', tr) /\
    resp = Response 200
             (JObj [("done", JBool true);
                    ("message", JStr "No reviews left in file.");
                    ("review", JNull)]) /\
    forallb (fun c => negb (is_update c)) tr = true /\
    tr = [GotContent (inr (Blob (reviews_file []) (reviews_file [])))] /\
    remote w' = reviews_file [].
Proof.
  split; [apply parse_reviews_file|].
  apply (next_review_empty pick_last (World (reviews_file []) [])
           (Blob (reviews_file []) (reviews_file [])) (World (reviews_file []) [])
           (JObj [("reviews", JArr [])]) (Some (JArr []))).
  - reflexivity.
  - apply parse_reviews_file.
  - reflexivity.
  - right. reflexivity.
Defined.

Lemma next_review_conflict_not_retried_witness :
  let w := World (reviews_file abc) [Quiet; Commit (reviews_file [JStr "A"; JStr "B"])] in
  let fetched := Blob (reviews_file abc) (reviews_file abc) in
  let refused := Updated (reviews_file [JStr "B"; JStr "C"]) (reviews_file abc)
                   (inl ConflictError) in
  exec (next_review pick_first) w
  = (server_error "Internal server error",
     World (reviews_file [JStr "A"; JStr "B"]) [],
     [GotContent (inr fetched); refused]) /\
  refused ∈ [GotContent (inr fetched); refused] /\
  server_error "Internal server error"
  = Response 500 (JObj [("error", JStr "Internal server error")]) /\
  exists b,
    [GotContent (inr fetched); refused]
    = [GotContent (inr b);
       Updated (reviews_file [JStr "B"; JStr "C"]) (reviews_file abc) (inl ConflictError)] /\
    reviews_file abc = sha b.
Proof.
  intros w fetched refused.
  assert (Hexec : exec (next_review pick_first) w
                  = (server_error "Internal server error",
                     World (reviews_file [JStr "A"; JStr "B"]) [],
                     [GotContent (inr fetched); refused])) by (vm_compute; reflexivity).
  assert (Hin : refused ∈ [GotContent (inr fetched); refused]) by (right; left).
  split; [exact Hexec|]. split; [exact Hin|].
  exact (next_review_conflict_not_retried pick_first w _ _ _ _ _ Hexec Hin).
Defined.

Lemma next_review_success_witness :
  let w := World (reviews_file abc) [] in
  let written := Updated (reviews_file [JStr "A"; JStr "C"]) (reviews_file abc) (inr tt) in
  in_range pick_middle /\
  exec (next_review pick_middle) w
  = (drawn (JStr "B") 2, World (reviews_file [JStr "A"; JStr "C"]) [],
     [GotContent (inr (Blob (reviews_file abc) (reviews_file abc))); written]) /\
  exists b json l chosen residual,
    fst (getContent w) = inr b /\
    JSON_parse (content b) = Some json /\
    prop_reviews json = inr (Some (JArr l)) /\
    selectAndRemove (pick_middle (length l)) l = (Some chosen, residual) /\
    length residual = length l - 1 /\
    drawn (JStr "B") 2
    = Response 200
        (JObj [("done", JBool false); ("review", chosen);
               ("remaining", JNum (Z.of_nat (length residual)))]) /\
    reviews_file [JStr "A"; JStr "C"] = JSON_stringify (JObj [("reviews", JArr residual)]) /\
    remote (World (reviews_file [JStr "A"; JStr "C"]) []) = reviews_file [JStr "A"; JStr "C"].
Proof.
  intros w written.
  assert (Hexec : exec (next_review pick_middle) w
                  = (drawn (JStr "B") 2, World (reviews_file [JStr "A"; JStr "C"]) [],
                     [GotContent (inr (Blob (reviews_file abc) (reviews_file abc))); written]))
    by (vm_compute; reflexivity).
  split; [exact pick_middle_in_range|]. split; [exact Hexec|].
  apply (next_review_success pick_middle w _ _ _
           (reviews_file [JStr "A"; JStr "C"]) (reviews_file abc)
           pick_middle_in_range Hexec).
  right; left.
Defined.

Lemma get_status_pure_witness :
  let w := World (reviews_file abc) [Quiet; Outage TransientError] in
  (exists rs tr,
      serve_status 5 w = (rs, after_events 5 w, tr) /\
      length rs = 5 /\ length tr = 5 /\
      forallb (fun c => negb (is_update c)) tr = true /\
      (undisturbed w = true -> remote (after_events 5 w) = remote w)) /\
  exec get_status w
  = (Response 200 (JObj [("count", JNum 3)]), World (reviews_file abc) [Outage TransientError],
     [GotContent (inr (Blob (reviews_file abc) (reviews_file abc)))]).
Proof.
  intros w. destruct get_status_pure as (Hframe & _ & Hcount). split.
  - exact (Hframe 5 w).
  - apply (Hcount w (Blob (reviews_file abc) (reviews_file abc))
             (World (reviews_file abc) [Outage TransientError])
             (JObj [("reviews", JArr abc)]) abc).
    + reflexivity.
    + apply parse_reviews_file.
    + reflexivity.
Defined.

Lemma status_disagrees_with_draw_witness :
  let text := Json.stringify (JObj [("reviews", JStr "abc")]) in
  JSON_parse text = Some (JObj [("reviews", JStr "abc")]) /\
  exec get_status (World text [])
  = (Response 200 (JObj [("count", JNum 3)]), World text [],
     [GotContent (inr (Blob text text))]) /\
  exec (next_review pick_first) (World text [])
  = (Response 200
       (JObj [("done", JBool true); ("message", JStr "No reviews left in file.");
              ("review", JNull)]), World text [],
     [GotContent (inr (Blob text text))]).
Proof.
  intros text. split; [apply JsonFacts.parse_stringify|].
  apply (status_disagrees_with_draw pick_first (World text []) (Blob text text)
           (World text []) (JObj [("reviews", JStr "abc")]) "abc").
  - reflexivity.
  - apply JsonFacts.parse_stringify.
  - reflexivity.
  - discriminate.
Defined.

Lemma draws_exhaust_the_list_witness :
  let w := World (reviews_file abc) [] in
  let sources := [pick_middle; pick_last; pick_first; pick_middle] in
  round_trips Json.platform /\
  Forall in_range sources /\
  exists order w' tr json',
    order ≡ₚ abc /\
    serve_draws sources w = (countdown order ++ [exhausted], w', tr) /\
    length (countdown order) = length abc /\
    JSON_parse (remote w') = Some json' /\
    prop_reviews json' = inr (Some (JArr [])).
Proof.
  intros w sources.
  assert (Hsources : Forall in_range sources).
  { repeat constructor;
      first [exact pick_first_in_range | exact pick_last_in_range | exact pick_middle_in_range]. }
  split; [exact JsonFacts.platform_round_trips|]. split; [exact Hsources|].
  apply (draws_exhaust_the_list JsonFacts.platform_round_trips sources w
           (JObj [("reviews", JArr abc)]) abc).
  - reflexivity.
  - apply parse_reviews_file.
  - reflexivity.
  - reflexivity.
  - exact Hsources.
Defined.

Lemma concurrent_draws_one_winner_witness :
  let w := World (reviews_file abc) [] in
  let fetched := Blob (reviews_file abc) (reviews_file abc) in
  round_trips Json.platform /\
  collision_free Json.platform /\
  exists w',
    interleave [false; true; true; false] (next_review pick_first) (next_review pick_last) w
    = (Ret (drawn (JStr "A") 2),
       Ret (server_error "Internal server error"),
       w',
       [GotContent (inr fetched); GotContent (inr fetched);
        Updated (reviews_file [JStr "B"; JStr "C"]) (reviews_file abc) (inr tt);
        Updated (reviews_file [JStr "A"; JStr "B"]) (reviews_file abc) (inl ConflictError)]) /\
    remote w' = reviews_file [JStr "B"; JStr "C"].
Proof.
  intros w fetched.
  split; [exact JsonFacts.platform_round_trips|].
  split; [exact JsonFacts.platform_collision_free|].
  destruct (concurrent_draws_one_winner
              JsonFacts.platform_round_trips JsonFacts.platform_collision_free
              false true pick_first pick_last w (JObj [("reviews", JArr abc)]) abc)
    as (review_a & review_b & w' & Ha & Hb & Hrun & Hremote).
  - reflexivity.
  - apply parse_reviews_file.
  - reflexivity.
  - discriminate.
  - exact pick_first_in_range.
  - exact pick_last_in_range.
  - injection Ha as <-. exists w'. split; [exact Hrun | exact Hremote].
Defined.

(** ** Runs for the further properties *)


Lemma startup_reads_five_variables_witness :
  let env : process_env :=
    {[ "GITHUB_TOKEN" := "t0ken"; "GITHUB_OWNER" := "owner"; "GITHUB_REPO" := "repo" ]} in
  startup (<["NODE_ENV" := "production"]> env) = startup env.
Proof.
  intros env. apply startup_reads_five_variables.
  intros name Hin. apply lookup_insert_ne. intros <-.
  unfold variables in Hin.
  repeat (apply elem_of_cons in Hin as [Hin | Hin]; [discriminate Hin|]).
  by apply elem_of_nil in Hin.
Defined.

Lemma fetch_failure_answers_500_witness :
  let w := World (reviews_file abc) [Outage TransientError] in
  getContent w = (inl TransientError, World (reviews_file abc) []) /\
  exec (next_review pick_first) w
  = (Response 500 (JObj [("error", JStr "Internal server error")]),
     World (reviews_file abc) [], [GotContent (inl TransientError)]) /\
  exec get_status w
  = (Response 500 (JObj [("error", JStr "Internal server error")]),
     World (reviews_file abc) [], [GotContent (inl TransientError)]) /\
  remote (World (reviews_file abc) []) = remote w.
Proof.
  intros w. split; [reflexivity|].
  apply (fetch_failure_answers_500 pick_first w TransientError (World (reviews_file abc) [])).
  reflexivity.
Defined.

Lemma invalid_json_answers_500_witness :
  let w := World "{reviews" [] in
  JSON_parse "{reviews" = None /\
  exec (next_review pick_first) w
  = (Response 500 (JObj [("error", JStr "Invalid JSON format in reviews.json")]), w,
     [GotContent (inr (Blob "{reviews" "{reviews"))]) /\
  exec get_status w
  = (Response 500 (JObj [("error", JStr "Internal server error")]), w,
     [GotContent (inr (Blob "{reviews" "{reviews"))]).
Proof.
  intros w. split; [reflexivity|].
  apply (invalid_json_answers_500 pick_first w (Blob "{reviews" "{reviews") w); reflexivity.
Defined.

Lemma get_status_null_witness :
  exec get_status (World "null" [])
  = (Response 500 (JObj [("error", JStr "Internal server error")]), World "null" [],
     [GotContent (inr (Blob "null" "null"))]).
Proof.
  apply (get_status_null (World "null" []) (Blob "null" "null") (World "null" []));
    reflexivity.
Defined.

Lemma falsy_reviews_is_empty_witness :
  let text := Json.stringify (JObj [("reviews", JNum 0)]) in
  js_not (Some (JNum 0)) = true /\
  exec get_status (World text [])
  = (Response 200 (JObj [("count", JNum 0)]), World text [],
     [GotContent (inr (Blob text text))]) /\
  exec (next_review pick_first) (World text [])
  = (Response 200
       (JObj [("done", JBool true); ("message", JStr "No reviews left in file.");
              ("review", JNull)]), World text [],
     [GotContent (inr (Blob text text))]).
Proof.
  intros text. split; [reflexivity|].
  apply (falsy_reviews_is_empty pick_first (World text []) (Blob text text) (World text [])
           (JObj [("reviews", JNum 0)]) (Some (JNum 0))).
  - reflexivity.
  - apply JsonFacts.parse_stringify.
  - reflexivity.
  - reflexivity.
Defined.

Lemma next_review_protocol_witness :
  let w := World (reviews_file abc) [Quiet; Outage AuthError] in
  let fetched := Blob (reviews_file abc) (reviews_file abc) in
  let tr := [GotContent (inr fetched);
             Updated (reviews_file [JStr "A"; JStr "B"]) (reviews_file abc) (inl AuthError)] in
  exec (next_review pick_last) w
  = (server_error "Internal server error", World (reviews_file abc) [], tr) /\
  (status (server_error "Internal server error") = 200 \/
   status (server_error "Internal server error") = 500) /\
  ((exists r, tr = [GotContent r]) \/
   (exists b json l res,
       tr = [GotContent (inr b);
             Updated (JSON_stringify (JObj [("reviews", JArr (delete (pick_last (length l)) l))]))
               (sha b) res] /\
       JSON_parse (content b) = Some json /\
       prop_reviews json = inr (Some (JArr l)) /\
       l <> [])).
Proof.
  intros w fetched tr.
  assert (Hexec : exec (next_review pick_last) w
                  = (server_error "Internal server error", World (reviews_file abc) [], tr))
    by (vm_compute; reflexivity).
  split; [exact Hexec|].
  exact (next_review_protocol pick_last w _ _ _ Hexec).
Defined.


Lemma draw_never_overwrites_commit_witness :
  let theirs := reviews_file [JStr "A"; JStr "B"] in
  let w := World (reviews_file abc) [Quiet; Commit theirs] in
  let fetched := Blob (reviews_file abc) (reviews_file abc) in
  blob_sha theirs <> sha fetched /\
  exists newJson,
    exec (next_review pick_first) w
    = (Response 500 (JObj [("error", JStr "Internal server error")]),
       World theirs [],
       [GotContent (inr fetched); Updated newJson (sha fetched) (inl ConflictError)]).
Proof.
  intros theirs w fetched.
  assert (Hsha : blob_sha theirs <> sha fetched).
  { intros Hsame. vm_compute in Hsame. discriminate Hsame. }
  split; [exact Hsha|].
  apply (draw_never_overwrites_commit pick_first w fetched
           (World (reviews_file abc) [Commit theirs]) (JObj [("reviews", JArr abc)]) abc
           theirs []).
  - reflexivity.
  - reflexivity.
  - exact Hsha.
  - apply parse_reviews_file.
  - reflexivity.
  - discriminate.
Defined.




Lemma status_does_not_disturb_draw_witness :
  let w := World (reviews_file abc) [] in
  exists w' tr,
    interleave [true; true; false] (next_review pick_last) get_status w
    = (Ret (drawn (JStr "C") 2), Ret (Response 200 (JObj [("count", JNum 2)])), w', tr) /\
    length (filter (fun c => wrote c = true) tr) = 1 /\
    remote w' = reviews_file [JStr "A"; JStr "B"].
Proof.
  intros w.
  destruct (status_does_not_disturb_draw JsonFacts.platform_round_trips pick_last w
              (JObj [("reviews", JArr abc)]) abc) as (review & Hreview & Hschedules).
  - reflexivity.
  - apply parse_reviews_file.
  - reflexivity.
  - vm_compute. lia.
  - injection Hreview as <-.
    apply (Hschedules [true; true; false] 2). right. right. left.
Defined.

Lemma draw_keeps_only_the_list_witness :
  let w1 := World (reviews_file abc) [] in
  let annotated := JObj [("title", JStr "Reviews"); ("reviews", JArr abc); ("version", JNum 4)] in
  let w2 := World (Json.stringify annotated) [] in
  exists resp w1' tr1 w2' tr2,
    exec (next_review pick_first) w1 = (resp, w1', tr1) /\
    exec (next_review pick_first) w2 = (resp, w2', tr2) /\
    remote w1' = remote w2' /\
    JSON_parse (remote w1') = Some (JObj [("reviews", JArr [JStr "B"; JStr "C"])]).
Proof.
  intros w1 annotated w2.
  apply (draw_keeps_only_the_list JsonFacts.platform_round_trips pick_first w1 w2
           (JObj [("reviews", JArr abc)]) annotated abc).
  - reflexivity.
  - reflexivity.
  - apply parse_reviews_file.
  - apply JsonFacts.parse_stringify.
  - reflexivity.
  - reflexivity.
  - vm_compute. lia.
Defined.
